(** * distributionFitting: a shallow embedding of the fitting-and-scoring engine

    The Python function [distributionFitting] (src/distributionFitting.py)
    reads integer samples, builds their empirical distribution, fits three
    parametric models and scores every fit with four goodness-of-fit
    statistics.  This file embeds that pipeline and proves properties of it.

    Numbers.  The program computes on IEEE doubles; two levels of modelling
    are used.

    The samples and the support (lines 98-106) are integer-valued doubles.
    [empirical_float] computes on them with the rounding of doubles (an
    integer of more than 53 significant bits is rounded to the nearest
    double, [pyfloat]); [empirical] is the same computation on unbounded
    integers.  The two agree on samples in the range from -2^52 to 2^52
    (lemma [empirical_float_exact]) and differ beyond 2^53, where
    neighbouring integers share one double.

    Probabilities, statistics, model values and metrics are modelled as
    exact reals extended with the three non-finite values of the format,
    [num]: rounding, overflow, underflow and the sign of zero are not
    modelled; division by zero, the infinities and NaN are.  Statements
    that need this idealisation say so ("exact real arithmetic"); module
    [F64] evaluates RMSE on doubles proper, where a small difference has a
    square that underflows to 0.

    Storage is unbounded: a support too long to be allocated is not
    modelled.

    External code.  [scipy.special.binom], [beta], [zetac], the float power
    of [**], [scipy.stats.iqr] and [scipy.optimize.curve_fit] are library
    code outside the repository: they are parameters of the development. *)

From Stdlib Require Import Reals Lra Lia ZArith List Bool Arith Permutation.
From Stdlib Require Floats.
Import ListNotations.

Open Scope R_scope.

(* ================================================================== *)
(** * Exceptions and fallible computations *)

(** The Python exceptions the pipeline can meet. *)
Inductive exn : Type :=
  | ValueError
  | IndexError
  | ZeroDivisionError
  | OverflowError
  | RuntimeError.

(** A computation either returns a value or raises. *)
Inductive res (A : Type) : Type :=
  | Ok (a : A)
  | Raise (e : exn).

Arguments Ok {A} a.
Arguments Raise {A} e.

Definition bind {A B : Type} (m : res A) (k : A -> res B) : res B :=
  match m with
  | Ok a => k a
  | Raise e => Raise e
  end.

Notation "x <- m ;; k" := (bind m (fun x => k))
  (at level 61, m at next level, right associativity).

(** A list comprehension whose body can raise: left to right, the first
    exception aborts the whole comprehension. *)
Fixpoint mapM {A B : Type} (f : A -> res B) (l : list A) : res (list B) :=
  match l with
  | [] => Ok []
  | a :: t => b <- f a ;; bs <- mapM f t ;; Ok (b :: bs)
  end.

(* ================================================================== *)
(** * Floating-point values: extended reals with NaN *)

Inductive num : Type :=
  | Fin (r : R)
  | PInf
  | NInf
  | NaN.

Definition is_finite (x : num) : bool :=
  match x with Fin _ => true | _ => false end.

Definition Rzero (r : R) : bool := if Req_dec_T r 0 then true else false.
Definition Rneg (r : R) : bool := if Rlt_dec r 0 then true else false.

Definition inf_of (negative : bool) : num := if negative then NInf else PInf.

(** An infinity of the given sign times (or a zero dividing) the finite [r]:
    NaN at [r = 0], otherwise the infinity with the product's sign. *)
Definition scale_inf (negative : bool) (r : R) : num :=
  if Rzero r then NaN else inf_of (xorb negative (Rneg r)).

Definition nopp (x : num) : num :=
  match x with
  | Fin a => Fin (- a)
  | PInf => NInf
  | NInf => PInf
  | NaN => NaN
  end.

Definition nadd (x y : num) : num :=
  match x, y with
  | NaN, _ | _, NaN => NaN
  | Fin a, Fin b => Fin (a + b)
  | PInf, NInf | NInf, PInf => NaN
  | PInf, _ | _, PInf => PInf
  | NInf, _ | _, NInf => NInf
  end.

Definition nsub (x y : num) : num := nadd x (nopp y).

Definition nmul (x y : num) : num :=
  match x, y with
  | NaN, _ | _, NaN => NaN
  | Fin a, Fin b => Fin (a * b)
  | Fin a, PInf | PInf, Fin a => scale_inf false a
  | Fin a, NInf | NInf, Fin a => scale_inf true a
  | PInf, PInf | NInf, NInf => PInf
  | PInf, NInf | NInf, PInf => NInf
  end.

(** numpy's true division: [x/0] is an infinity ([0/0] is NaN) and never
    raises.  Plain Python floats would raise [ZeroDivisionError] on a zero
    divisor; the only plain-float divisor the pipeline meets is the uniform
    density [1/n], which is never zero (lemma [uniDist_entries]).  The
    metrics are closures of [distributionFitting]: they are called at lines
    217-233 only, with the model vectors as divisors. *)
Definition ndiv (x y : num) : num :=
  match x, y with
  | NaN, _ | _, NaN => NaN
  | Fin a, Fin b => if Rzero b then scale_inf false a else Fin (a / b)
  | Fin _, PInf | Fin _, NInf => Fin 0
  | PInf, Fin b => inf_of (Rneg b)
  | NInf, Fin b => inf_of (negb (Rneg b))
  | PInf, PInf | PInf, NInf | NInf, PInf | NInf, NInf => NaN
  end.

(** [x ** 2], the exact square.  On doubles the square of a number below
    about 1.5e-162 in absolute value underflows to 0, and the square of
    one above about 1.3e154 overflows: to an infinity on numpy's floats,
    to an [OverflowError] on Python's (module [F64] has both). *)
Definition nsq (x : num) : num := nmul x x.

(** [np.sqrt]. *)
Definition nsqrt (x : num) : num :=
  match x with
  | Fin a => if Rneg a then NaN else Fin (sqrt a)
  | PInf => PInf
  | NInf => NaN
  | NaN => NaN
  end.

(** [abs]. *)
Definition nabs (x : num) : num :=
  match x with
  | Fin a => Fin (Rabs a)
  | PInf | NInf => PInf
  | NaN => NaN
  end.

(** The binary step of [np.max]: NaN wins, otherwise the larger one. *)
Definition nmax (x y : num) : num :=
  match x, y with
  | NaN, _ | _, NaN => NaN
  | PInf, _ | _, PInf => PInf
  | NInf, z | z, NInf => z
  | Fin a, Fin b => Fin (Rmax a b)
  end.

(** Python ints used in float arithmetic. *)
Definition of_nat (k : nat) : num := Fin (INR k).
Definition of_Z (z : Z) : num := Fin (IZR z).

(** [a / b] on Python ints: true division, raising on a zero divisor. *)
Definition true_div (a b : nat) : res num :=
  if Nat.eqb b 0 then Raise ZeroDivisionError else Ok (Fin (INR a / INR b)).

(* ================================================================== *)
(** * The numpy helpers the pipeline calls *)

(** [np.sum]. *)
Definition np_sum (l : list num) : num := fold_left nadd l (Fin 0).

(** [np.mean]: the sum over the count; NaN ([0/0]) on an empty list.  The
    sum and the quotient are exact: on doubles the mean of k copies of a
    value can differ from it in the last bit (seven copies of 1/7 have the
    mean 0.14285714285714282). *)
Definition np_mean (l : list num) : num := ndiv (np_sum l) (of_nat (length l)).

(** [np.var]: the mean of the squared deviations from the mean. *)
Definition np_var (l : list num) : num :=
  let m := np_mean l in np_mean (map (fun x => nsq (nabs (nsub x m))) l).

(** [np.std]. *)
Definition np_std (l : list num) : num := nsqrt (np_var l).

(** [np.cumsum]: the running sums. *)
Fixpoint cumsum_from (acc : num) (l : list num) : list num :=
  match l with
  | [] => []
  | x :: t => let acc' := nadd acc x in acc' :: cumsum_from acc' t
  end.

Definition np_cumsum (l : list num) : list num :=
  match l with
  | [] => []
  | x :: t => x :: cumsum_from x t
  end.

(** [np.max] of a list of floats: raises on an empty one. *)
Definition np_max (l : list num) : res num :=
  match l with
  | [] => Raise ValueError
  | x :: t => Ok (fold_left nmax t x)
  end.

(** [np.min] and [np.max] of the samples (integer-valued floats). *)
Definition np_minZ (l : list Z) : res Z :=
  match l with
  | [] => Raise ValueError
  | x :: t => Ok (fold_left Z.min t x)
  end.

Definition np_maxZ (l : list Z) : res Z :=
  match l with
  | [] => Raise ValueError
  | x :: t => Ok (fold_left Z.max t x)
  end.

(** The integers from [start] to [stop - 1]: what [np.arange(start, stop)]
    holds when no operation rounds (lemma [np_arange_exact]). *)
Definition arange (start stop : Z) : list Z :=
  map (fun i => (start + Z.of_nat i)%Z) (seq 0 (Z.to_nat (stop - start))).

(** [range(0, k)]. *)
Definition range (k : nat) : list nat := seq 0 k.

(** [l[i]] on a list or array. *)
Definition getitem {A : Type} (l : list A) (i : nat) : res A :=
  match nth_error l i with
  | Some v => Ok v
  | None => Raise IndexError
  end.

(* ================================================================== *)
(** * EmpiricalDistribution (source lines 102-110) *)

(** [xs.index(v)]: the first position of [v], [ValueError] when absent. *)
Fixpoint index (v : Z) (xs : list Z) : res nat :=
  match xs with
  | [] => Raise ValueError
  | y :: t => if Z.eqb y v then Ok O else k <- index v t ;; Ok (S k)
  end.

(** [fr[k] += 1]. *)
Fixpoint incr_at (k : nat) (fr : list nat) : res (list nat) :=
  match fr, k with
  | [], _ => Raise IndexError
  | c :: t, O => Ok (S c :: t)
  | c :: t, S k' => t' <- incr_at k' t ;; Ok (c :: t')
  end.

(** The counting loop [for i in range(0,len(R)): fr[xs.index(R[i])] += 1]. *)
Fixpoint count_loop (xs : list Z) (samples : list Z) (fr : list nat) : res (list nat) :=
  match samples with
  | [] => Ok fr
  | r :: samples' => k <- index r xs ;; fr' <- incr_at k fr ;; count_loop xs samples' fr'
  end.

Record empirical_dist : Type := mkEmpirical {
  xs : list Z;      (* support *)
  fr : list nat;    (* frequency of each support point *)
  N  : nat;         (* number of samples *)
  n  : nat;         (* number of support points *)
  p  : list num     (* probability of each support point *)
}.

(** Lines 102-110 on unbounded integers. *)
Definition empirical (samples : list Z) : res empirical_dist :=
  lo <- np_minZ samples ;;
  hi <- np_maxZ samples ;;
  let xs := arange lo (hi + 1) in
  let fr0 := repeat O (length xs) in
  fr <- count_loop xs samples fr0 ;;
  let N := length samples in
  let n := length xs in
  p <- mapM (fun x => true_div x N) fr ;;
  Ok (mkEmpirical xs fr N n p).

(* ================================================================== *)
(** * The samples as doubles (source lines 98-110)

    Line 98 reads every sample with [float], and lines 102-106 compute on
    the doubles.  All the doubles met there hold integers: a double is
    modelled by the integer it holds, and an operation by the exact
    operation on integers followed by the rounding of the format. *)

Definition two52 : Z := Eval cbv in (2 ^ 52)%Z.
Definition two53 : Z := Eval cbv in (2 ^ 53)%Z.
Definition two63 : Z := Eval cbv in (2 ^ 63)%Z.

(** [float(z)]: the double nearest to the integer [z].  Up to 2^53 it is
    [z]; beyond, [z] is cut to its 53 leading bits, to the nearest, ties
    to the even one. *)
Definition pyfloat (z : Z) : Z :=
  let a := Z.abs z in
  if (a <=? two53)%Z then z
  else
    let e := (Z.log2 a - 52)%Z in
    let q := Z.shiftr a e in
    let r := (a - Z.shiftl q e)%Z in
    let half := Z.shiftl 1 (e - 1) in
    let q' := if (r <? half)%Z then q
              else if (half <? r)%Z then (q + 1)%Z
              else if Z.even q then q else (q + 1)%Z in
    (Z.sgn z * Z.shiftl q' e)%Z.

(** The integers a double can hold: at most 53 significant bits. *)
Definition is_double (z : Z) : bool :=
  let a := Z.abs z in
  let e := (Z.log2 a - 52)%Z in
  (a <=? two53)%Z || (Z.shiftl (Z.shiftr a e) e =? a)%Z.

(** Rounding overflows to an infinity from 2^1024 on: a rounded integer
    that large stands for the infinity of its sign. *)
Definition is_inf (z : Z) : bool := (1024 <=? Z.log2 (Z.abs z))%Z.

(** [np.arange(start, stop)] on doubles, step 1.  The length is
    [ceil((stop - start)/1)]; numpy stores [start] and [start + 1], takes
    their difference [delta] and fills entry i with [start + i*delta].
    Every failure to compute a length (NaN from two infinities, a length
    that is infinite or does not fit the index type) is reported as
    [ValueError]. *)
Definition np_arange (start stop : Z) : res (list Z) :=
  if is_inf start || is_inf stop then Raise ValueError
  else
    let len := pyfloat (stop - start) in
    if (two63 <=? Z.abs len)%Z then Raise ValueError
    else
      let next := pyfloat (start + 1) in
      let delta := pyfloat (next - start) in
      Ok (map (fun i => match i with
                        | O => start
                        | S O => next
                        | _ => pyfloat (start + pyfloat (Z.of_nat i * delta))
                        end)
              (seq 0 (Z.to_nat len))).

(** Lines 98-110 as the program runs them. *)
Definition empirical_float (samples : list Z) : res empirical_dist :=
  let R := map pyfloat samples in
  lo <- np_minZ R ;;
  hi <- np_maxZ R ;;
  xs <- np_arange lo (pyfloat (hi + 1)) ;;
  let fr0 := repeat O (length xs) in
  fr <- count_loop xs R fr0 ;;
  let N := length R in
  let n := length xs in
  p <- mapM (fun x => true_div x N) fr ;;
  Ok (mkEmpirical xs fr N n p).

(** Samples on which lines 98-106 round nothing. *)
Definition exact_range (samples : list Z) : Prop :=
  Forall (fun r => (- two52 <= r < two52)%Z) samples.

(** The summary statistics (lines 115-121); [iqr] is [scipy.stats.iqr]. *)
Definition basic_stats (iqr : list num -> num) (samples : list Z) : res (list num) :=
  let Rf := map of_Z samples in
  lo <- np_minZ samples ;;
  hi <- np_maxZ samples ;;
  Ok [np_mean Rf; np_std Rf; nsub (of_Z hi) (of_Z lo); np_var Rf; iqr Rf].

(* ================================================================== *)
(** * Scipy's element-wise functions *)

(** Element-wise special functions return NaN on a NaN argument. *)
Definition ufunc1 (f : num -> num) (x : num) : num :=
  match x with NaN => NaN | _ => f x end.

Definition ufunc2 (f : num -> num -> num) (x y : num) : num :=
  match x, y with
  | NaN, _ | _, NaN => NaN
  | _, _ => f x y
  end.

(** The external numeric functions of the pipeline. *)
Record special_functions : Type := mkSpecial {
  cephes_binom : num -> num -> num;   (* scipy.special.binom *)
  cephes_beta  : num -> num -> num;   (* scipy.special.beta *)
  cephes_zetac : num -> num;          (* scipy.special.zetac *)
  float_pow    : num -> num -> num    (* x ** y on floats *)
}.

(* ================================================================== *)
(** * ModelLibrary (source lines 129-157) *)

(** [uniDist(x, n)]: [[1/n]*len(x)]. *)
Definition uniDist {A : Type} (x : list A) (n : nat) : res (list num) :=
  y <- true_div 1 n ;; Ok (repeat y (length x)).

Section ModelLibrary.

Variable sf : special_functions.

Definition binom : num -> num -> num := ufunc2 (cephes_binom sf).
Definition beta : num -> num -> num := ufunc2 (cephes_beta sf).
Definition zetac : num -> num := ufunc1 (cephes_zetac sf).

(** [betaBinom(x,a,b)]: [n = len(x)], then
    [binom(n,x)*beta(a+x,b+n-x)/beta(a,b)] element-wise. *)
Definition betaBinom (x : list num) (a b : num) : list num :=
  let n := of_nat (length x) in
  map (fun xi =>
         ndiv (nmul (binom n xi) (beta (nadd a xi) (nsub (nadd b n) xi)))
              (beta a b)) x.

(** [betaBinomN(x,n,a,b)]: the same with [n] given by the caller. *)
Definition betaBinomN (x : list num) (n : num) (a b : num) : list num :=
  map (fun xi =>
         ndiv (nmul (binom n xi) (beta (nadd a xi) (nsub (nadd b n) xi)))
              (beta a b)) x.

(** [zipfDist(x,c)]: [[xx**(-1*(c)) for xx in x]/zetac(c)]. *)
Definition zipfDist (x : list num) (c : num) : list num :=
  let z := zetac c in
  map (fun v => ndiv v z)
      (map (fun xx => float_pow sf xx (nmul (Fin (-1)) c)) x).

End ModelLibrary.

(* ================================================================== *)
(** * GoodnessOfFit (source lines 186-212) *)

(** The loop of [chiSquare] over the indices still to visit.  The division
    [x / E[i]] is numpy's at the call sites where a divisor can be 0 (the
    beta-binomial and Zipfian vectors are arrays), see [ndiv]. *)
Fixpoint chi_loop (O E : list num) (idx : list nat) (chi_sq : num) : res num :=
  match idx with
  | [] => Ok chi_sq
  | i :: rest =>
      o <- getitem O i ;;
      e <- getitem E i ;;
      let x := nsq (nsub o e) in
      let x := ndiv x e in
      chi_loop O E rest (nadd chi_sq x)
  end.

Definition chiSquare (O E : list num) : res num :=
  chi_loop O E (range (length O)) (Fin 0).

(** [(O[i] - E[i])**2]. *)
Definition sq_err (O E : list num) (i : nat) : res num :=
  o <- getitem O i ;; e <- getitem E i ;; Ok (nsq (nsub o e)).

Definition RSquare (O E : list num) : res num :=
  SSres <- mapM (sq_err O E) (range (length O)) ;;
  SStot <- mapM (fun i => o <- getitem O i ;; Ok (nsq (nsub o (np_mean O))))
                (range (length O)) ;;
  Ok (nsub (Fin 1) (ndiv (np_sum SSres) (np_sum SStot))).

Definition RMSE (O E : list num) : res num :=
  SE <- mapM (sq_err O E) (range (length O)) ;;
  Ok (nsqrt (np_mean SE)).

Definition KS (O E : list num) : res num :=
  let cumO := np_cumsum O in
  let cumE := np_cumsum E in
  d <- mapM (fun i => a <- getitem cumO i ;; b <- getitem cumE i ;;
                      Ok (nabs (nsub a b)))
            (range (length O)) ;;
  np_max d.

(* ================================================================== *)
(** * FitOrchestrator (source lines 83-330) *)

(** What the function returns: [out = [basicStats, cell_data, fittingParams]]. *)
Record output : Type := mkOutput {
  basicStats    : list num;          (* mean, std, range, variance, IQR *)
  cell_data     : list (list num);   (* chis, Rs, RMSEs, KSs: one entry per model *)
  fittingParams : list num           (* a, b, c *)
}.

(** [try: b1,b2 = curve_fit(...) except: b1 = [np.nan]*2]. *)
Definition b1_of (fit : res (num * num)) : num * num :=
  match fit with
  | Ok b1 => b1
  | Raise _ => (NaN, NaN)
  end.

(** [try: z1,z2 = curve_fit(...) except: z1 = [np.nan]]. *)
Definition z1_of (fit : res num) : num :=
  match fit with
  | Ok c => c
  | Raise _ => NaN
  end.

Section FitOrchestrator.

Variable sf : special_functions.
Variable iqr : list num -> num.

(** [scipy.optimize.curve_fit] at its two call sites, as the relation
    between the model, the data and what the call produces: the fitted
    parameters, or an exception.  A relation leaves room for an optimizer
    whose result is not determined by its arguments. *)
Variable curve_fit_bounded :
  (list num -> num -> num -> list num) -> list num -> list num ->
  res (num * num) -> Prop.
Variable curve_fit_free :
  (list num -> num -> list num) -> list num -> list num ->
  res num -> Prop.

(** One row of the metrics table (lines 216-234): the metric on the
    uniform, beta-binomial and Zipfian densities. *)
Definition metric_row (metric : list num -> list num -> res num)
           (e : empirical_dist) (a b c : num) : res (list num) :=
  let x := map of_Z (xs e) in
  u <- uniDist x (n e) ;;
  m0 <- metric (p e) u ;;
  m1 <- metric (p e) (betaBinom sf x a b) ;;
  m2 <- metric (p e) (zipfDist sf x c) ;;
  Ok [m0; m1; m2].

Definition score (e : empirical_dist) (a b c : num) : res (list (list num)) :=
  chis <- metric_row chiSquare e a b c ;;
  Rs <- metric_row RSquare e a b c ;;
  RMSEs <- metric_row RMSE e a b c ;;
  KSs <- metric_row KS e a b c ;;
  Ok [chis; Rs; RMSEs; KSs].

(** Everything after the two optimizer calls. *)
Definition finish (stats : list num) (e : empirical_dist)
           (bfit : res (num * num)) (zfit : res num) : res output :=
  let b1 := b1_of bfit in
  let z1 := z1_of zfit in
  cells <- score e (fst b1) (snd b1) z1 ;;
  Ok (mkOutput stats cells [fst b1; snd b1; z1]).

(** [distributionFitting samples out]: a call on the samples ends in [out]
    (a returned value or an exception).  Printing and plotting are left
    out: they do not change what is returned. *)
Definition distributionFitting (samples : list Z) (out : res output) : Prop :=
  match empirical_float samples with
  | Raise e => out = Raise e
  | Ok emp =>
      match basic_stats iqr (map pyfloat samples) with
      | Raise e => out = Raise e
      | Ok stats =>
          exists bfit zfit,
            curve_fit_bounded (betaBinom sf) (map of_Z (xs emp)) (p emp) bfit /\
            curve_fit_free (zipfDist sf) (map of_Z (xs emp)) (p emp) zfit /\
            out = finish stats emp bfit zfit
      end
  end.

End FitOrchestrator.

(* ================================================================== *)
(** * The specification's formulas, stated independently of the code *)

(** A probability vector: finite entries, each at least 0, summing to 1. *)
Fixpoint Rsum (l : list R) : R :=
  match l with
  | [] => 0
  | r :: t => r + Rsum t
  end.

Definition prob_vector (v : list num) : Prop :=
  exists rs, v = map Fin rs /\ Forall (fun r => 0 <= r) rs /\ Rsum rs = 1.

(** Every entry is a finite real. *)
Definition finite_vec (v : list num) : Prop := Forall (fun x => is_finite x = true) v.

(** Entries that are finite and at least 0. *)
Definition nonneg_fin (x : num) : Prop := exists r, x = Fin r /\ 0 <= r.

(** The sum of a list of terms, as a mathematical sum (right-nested). *)
Definition nsum (l : list num) : num := fold_right nadd (Fin 0) l.

(** The entry-wise combination of two vectors. *)
Definition zip_with (h : num -> num -> num) (O E : list num) : list num :=
  map (fun oe => h (fst oe) (snd oe)) (combine O E).

(** The squared and the absolute difference of two entries. *)
Definition sq_diff (o e : num) : num := nsq (nsub o e).
Definition abs_diff (a b : num) : num := nabs (nsub a b).

(** The chi-square formula: the sum over i of (O_i - E_i)^2 / E_i. *)
Definition chi_term (o e : num) : num := ndiv (nsq (nsub o e)) e.

Definition chi_formula (O E : list num) : num :=
  nsum (zip_with chi_term O E).

(** Column [j] of the metrics table: one model's four metrics. *)
Definition column (j : nat) (cells : list (list num)) : list num :=
  map (fun row => nth j row NaN) cells.

(** [col] holds the four metrics of the expected vector [E] against [O]. *)
Definition scored_column (O E col : list num) : Prop :=
  exists c r m k,
    col = [c; r; m; k] /\
    chiSquare O E = Ok c /\ RSquare O E = Ok r /\
    RMSE O E = Ok m /\ KS O E = Ok k.

(** The result has its complete field set: five statistics, a table of
    four rows of three entries, three parameters. *)
Definition complete_shape (o : output) : Prop :=
  length (basicStats o) = 5%nat /\
  length (cell_data o) = 4%nat /\
  Forall (fun row => length row = 3%nat) (cell_data o) /\
  length (fittingParams o) = 3%nat.

(** The beta-binomial density of the specification: the same formula taken
    at the rank offsets 0 .. n-1 of the support points. *)
Definition betaBinom_rank (sf : special_functions) (x : list num) (a b : num)
  : list num :=
  let n := of_nat (length x) in
  map (fun k =>
         ndiv (nmul (binom sf n (of_nat k))
                    (beta sf (nadd a (of_nat k)) (nsub (nadd b n) (of_nat k))))
              (beta sf a b))
      (range (length x)).

(** The Riemann zeta function behind [scipy.special.zetac], which is
    documented as "Riemann zeta function minus 1". *)
Definition zeta (sf : special_functions) (c : num) : num :=
  nadd (zetac sf c) (Fin 1).

(** The Zipfian density of the specification: x^(-c) / zeta(c). *)
Definition zipf_formula (sf : special_functions) (x : list num) (c : num)
  : list num :=
  map (fun xx => ndiv (float_pow sf xx (nopp c)) (zeta sf c)) x.

(* ================================================================== *)
(** * Reference values of the external functions

    Closed forms on the arguments where the Standard Library can express
    them, NaN elsewhere.  They serve to run the pipeline on examples. *)

(** The natural number a real is, if it is one. *)
Definition as_nat (r : R) : option nat :=
  let z := (up r - 1)%Z in
  if Req_dec_T (IZR z) r then
    if Z.leb 0 z then Some (Z.to_nat z) else None
  else None.

Fixpoint choose (n k : nat) : nat :=
  match n, k with
  | _, O => 1
  | O, S _ => 0
  | S n', S k' => (choose n' k' + choose n' k)%nat
  end.

Definition ref_binom (n k : num) : num :=
  match n, k with
  | Fin n, Fin k =>
      match as_nat n, as_nat k with
      | Some n', Some k' => of_nat (choose n' k')
      | _, _ => NaN
      end
  | _, _ => NaN
  end.

(** B(p, q) = (p-1)! (q-1)! / (p+q-1)! on positive integers. *)
Definition ref_beta (p q : num) : num :=
  match p, q with
  | Fin p, Fin q =>
      match as_nat p, as_nat q with
      | Some (S p'), Some (S q') =>
          Fin (INR (fact p' * fact q') / INR (fact (p' + q' + 1)))
      | _, _ => NaN
      end
  | _, _ => NaN
  end.

(** [zetac] where it has a closed form: zeta(2) - 1 = pi^2/6 - 1, the
    pole at 1 (scipy returns the infinity there) and zeta(0) - 1 = -3/2. *)
Definition ref_zetac (c : num) : num :=
  match c with
  | Fin c =>
      if Req_dec_T c 2 then Fin (PI * PI / 6 - 1)
      else if Req_dec_T c 1 then PInf
      else if Req_dec_T c 0 then Fin (- (3 / 2))
      else NaN
  | _ => NaN
  end.

(** x ** y for a positive base, and for the base 0 as the format defines
    it: 1 at the exponent 0, 0 at a positive exponent, the infinity (a
    division by zero) at a negative one. *)
Definition ref_pow (x y : num) : num :=
  match x, y with
  | Fin x, Fin y =>
      if Rlt_dec 0 x then Fin (Rpower x y)
      else if Req_dec_T x 0 then
        if Req_dec_T y 0 then Fin 1
        else if Rlt_dec 0 y then Fin 0 else PInf
      else NaN
  | Fin x, PInf => if Req_dec_T x 0 then Fin 0 else NaN
  | Fin x, NInf => if Req_dec_T x 0 then PInf else NaN
  | _, _ => NaN
  end.

Definition ref_sf : special_functions :=
  mkSpecial ref_binom ref_beta ref_zetac ref_pow.

(* ================================================================== *)
(** * RMSE on doubles (source lines 202-205)

    The same function on the kernel's binary64 floats, for vectors of
    Python floats.  The sum runs from left to right, which is numpy's
    order on fewer than 8 entries. *)

Module F64.

Import Floats.

Definition zero : float := 0%float.
Definition half : float := 0.5%float.

(** The double nearest to 1e-200. *)
Definition tiny : float := 0x1.87e92154ef7acp-665%float.

(** 2^600, whose square is beyond the largest double. *)
Definition huge : float := 0x1p+600%float.

(** Integers below 2^63 as doubles. *)
Definition of_Z (z : Z) : float := PrimFloat.of_uint63 (Uint63.of_Z z).

(** [x ** 2] on Python floats: the rounded square; a finite [x] whose
    square overflows raises.  A square that underflows is 0. *)
Definition pow2 (x : float) : res float :=
  let y := PrimFloat.mul x x in
  if PrimFloat.is_infinity y && negb (PrimFloat.is_infinity x)
  then Raise OverflowError else Ok y.

Definition sq_err (O E : list float) (i : nat) : res float :=
  o <- getitem O i ;; e <- getitem E i ;; pow2 (PrimFloat.sub o e).

Definition np_sum (l : list float) : float := fold_left PrimFloat.add l zero.

Definition np_mean (l : list float) : float :=
  PrimFloat.div (np_sum l) (of_Z (Z.of_nat (length l))).

Definition RMSE (O E : list float) : res float :=
  SE <- mapM (sq_err O E) (range (length O)) ;;
  Ok (PrimFloat.sqrt (np_mean SE)).

End F64.

(** An interquartile range left undefined. *)
Definition iqr_undefined (l : list num) : num := NaN.

(** An optimizer that stops at once and raises, whatever it is given. *)
Definition failing_fit {M P : Type} (model : M) (xdata ydata : list num)
           (outcome : res P) : Prop :=
  outcome = Raise RuntimeError.

(** The laws of [x ** y] at the base 0 that the Zipfian density meets on a
    support that holds 0: the power is 0, 1, the infinity or NaN, and 1
    only at the exponent 0. *)
Definition pow_at_zero (sf : special_functions) : Prop :=
  forall y,
    float_pow sf (Fin 0) y = Fin 0 \/ float_pow sf (Fin 0) y = PInf \/
    float_pow sf (Fin 0) y = NaN \/
    (float_pow sf (Fin 0) y = Fin 1 /\ y = Fin 0).

(** An optimizer that returns its starting point, all ones
    ([curve_fit]'s default initial guess). *)
Definition initial_guess2 (model : list num -> num -> num -> list num)
           (xdata ydata : list num) (outcome : res (num * num)) : Prop :=
  outcome = Ok (Fin 1, Fin 1).

Definition initial_guess1 (model : list num -> num -> list num)
           (xdata ydata : list num) (outcome : res num) : Prop :=
  outcome = Ok (Fin 1).

(** The empirical distribution of the samples 1, 1, 2. *)
Definition e112 : empirical_dist :=
  mkEmpirical [1; 2]%Z [2; 1]%nat 3 2 [Fin (INR 2 / INR 3); Fin (INR 1 / INR 3)].

(** The empirical distribution of the samples 5, 5, 5, 5. *)
Definition e5555 : empirical_dist :=
  mkEmpirical [5]%Z [4]%nat 4 1 [Fin (INR 4 / INR 4)].

(* ================================================================== *)
(** * Properties *)

(** ** Arithmetic of [num] *)

Lemma nadd_comm x y : nadd x y = nadd y x.
Proof. destruct x, y; simpl; try reflexivity. f_equal. lra. Qed.

Lemma nadd_assoc x y z : nadd x (nadd y z) = nadd (nadd x y) z.
Proof. destruct x, y, z; simpl; try reflexivity. f_equal. lra. Qed.

Lemma nadd_0_l x : nadd (Fin 0) x = x.
Proof. destruct x; simpl; try reflexivity. f_equal. lra. Qed.

Lemma nadd_0_r x : nadd x (Fin 0) = x.
Proof. rewrite nadd_comm. apply nadd_0_l. Qed.

Lemma nadd_finite x y :
  is_finite (nadd x y) = true -> is_finite x = true /\ is_finite y = true.
Proof. destruct x, y; simpl; intros; try discriminate; auto. Qed.

(** ** Sums *)

Lemma fold_left_nadd_acc l a :
  fold_left nadd l a = nadd a (fold_right nadd (Fin 0) l).
Proof.
  revert a. induction l as [|x t IH]; intros a; simpl.
  - now rewrite nadd_0_r.
  - rewrite IH. now rewrite nadd_assoc.
Qed.

Lemma np_sum_nsum l : np_sum l = nsum l.
Proof. unfold np_sum, nsum. rewrite fold_left_nadd_acc. apply nadd_0_l. Qed.

Lemma nsum_Fin rs : nsum (map Fin rs) = Fin (Rsum rs).
Proof.
  unfold nsum. induction rs as [|r t IH]; simpl; [reflexivity|].
  now rewrite IH.
Qed.

Lemma np_sum_Fin rs : np_sum (map Fin rs) = Fin (Rsum rs).
Proof. rewrite np_sum_nsum. apply nsum_Fin. Qed.

Lemma Rsum_nonneg rs : Forall (fun r => 0 <= r) rs -> 0 <= Rsum rs.
Proof. induction 1; simpl; lra. Qed.

(** ** Fallible helpers *)

Lemma mapM_ok {A B} (f : A -> res B) (g : A -> B) l :
  (forall a, In a l -> f a = Ok (g a)) -> mapM f l = Ok (map g l).
Proof.
  induction l as [|a t IH]; intros H; simpl; [reflexivity|].
  rewrite (H a) by (now left). simpl.
  rewrite IH by (intros; apply H; now right). reflexivity.
Qed.

Lemma nth_map_in {A B} (f : A -> B) l i d d' :
  (i < length l)%nat -> nth i (map f l) d' = f (nth i l d).
Proof.
  intros H. rewrite (nth_indep _ d' (f d)) by now rewrite length_map.
  apply map_nth.
Qed.

(** ** Minimum, maximum and the support *)

Lemma fold_min_le t : forall x,
  (fold_left Z.min t x <= x)%Z /\
  Forall (fun y => (fold_left Z.min t x <= y)%Z) t.
Proof.
  induction t as [|y t IH]; intros x; simpl.
  - split; [lia | constructor].
  - destruct (IH (Z.min x y)) as [H1 H2]. split; [lia|].
    constructor; [lia | exact H2].
Qed.

Lemma fold_min_in t : forall x,
  fold_left Z.min t x = x \/ In (fold_left Z.min t x) t.
Proof.
  induction t as [|y t IH]; intros x; simpl; [now left|].
  destruct (IH (Z.min x y)) as [H|H]; [|now right; right].
  rewrite H. destruct (Z.min_spec x y) as [[_ E]|[_ E]]; rewrite E; auto.
Qed.

Lemma fold_max_ge t : forall x,
  (x <= fold_left Z.max t x)%Z /\
  Forall (fun y => (y <= fold_left Z.max t x)%Z) t.
Proof.
  induction t as [|y t IH]; intros x; simpl.
  - split; [lia | constructor].
  - destruct (IH (Z.max x y)) as [H1 H2]. split; [lia|].
    constructor; [lia | exact H2].
Qed.

Lemma fold_max_in t : forall x,
  fold_left Z.max t x = x \/ In (fold_left Z.max t x) t.
Proof.
  induction t as [|y t IH]; intros x; simpl; [now left|].
  destruct (IH (Z.max x y)) as [H|H]; [|now right; right].
  rewrite H. destruct (Z.max_spec x y) as [[_ E]|[_ E]]; rewrite E; auto.
Qed.

Lemma np_minZ_spec samples : samples <> [] ->
  exists lo, np_minZ samples = Ok lo /\ In lo samples /\ Forall (fun r => (lo <= r)%Z) samples.
Proof.
  destruct samples as [|x t]; [congruence|]. intros _. simpl.
  exists (fold_left Z.min t x). split; [reflexivity|].
  destruct (fold_min_le t x) as [H1 H2]. split.
  - destruct (fold_min_in t x) as [E|E]; [left; now rewrite E | now right].
  - constructor; assumption.
Qed.

Lemma np_maxZ_spec samples : samples <> [] ->
  exists hi, np_maxZ samples = Ok hi /\ In hi samples /\ Forall (fun r => (r <= hi)%Z) samples.
Proof.
  destruct samples as [|x t]; [congruence|]. intros _. simpl.
  exists (fold_left Z.max t x). split; [reflexivity|].
  destruct (fold_max_ge t x) as [H1 H2]. split.
  - destruct (fold_max_in t x) as [E|E]; [left; now rewrite E | now right].
  - constructor; assumption.
Qed.

Lemma arange_length lo hi : length (arange lo hi) = Z.to_nat (hi - lo).
Proof. unfold arange. now rewrite length_map, length_seq. Qed.

Lemma arange_nth lo hi i :
  (i < Z.to_nat (hi - lo))%nat ->
  nth i (arange lo hi) 0%Z = (lo + Z.of_nat i)%Z.
Proof.
  intros H. unfold arange.
  rewrite (nth_indep _ 0%Z (lo + Z.of_nat 0)%Z)
    by now rewrite length_map, length_seq.
  rewrite (map_nth (fun k => (lo + Z.of_nat k)%Z) _ O i).
  now rewrite seq_nth by assumption.
Qed.

Lemma arange_In lo hi z : In z (arange lo hi) <-> (lo <= z < hi)%Z.
Proof.
  unfold arange. rewrite in_map_iff. split.
  - intros [i [E Hi]]. apply in_seq in Hi. lia.
  - intros H. exists (Z.to_nat (z - lo)). split; [lia|].
    apply in_seq. lia.
Qed.

Lemma index_seq lo v : forall k s,
  (lo + Z.of_nat s <= v < lo + Z.of_nat s + Z.of_nat k)%Z ->
  index v (map (fun i => (lo + Z.of_nat i)%Z) (seq s k))
  = Ok (Z.to_nat (v - lo) - s)%nat.
Proof.
  induction k as [|k IH]; intros s H; [lia|]. simpl.
  destruct (Z.eqb_spec (lo + Z.of_nat s) v) as [E|E].
  - f_equal. lia.
  - rewrite IH by lia. simpl. f_equal. lia.
Qed.

Lemma index_arange lo hi v :
  (lo <= v < hi)%Z -> index v (arange lo hi) = Ok (Z.to_nat (v - lo)).
Proof.
  intros H. unfold arange. rewrite index_seq by lia. f_equal. lia.
Qed.

(** ** The counting loop *)

Lemma incr_at_spec : forall fr k, (k < length fr)%nat ->
  exists fr', incr_at k fr = Ok fr' /\ length fr' = length fr /\
    (forall i, nth i fr' O = if Nat.eqb i k then S (nth i fr O) else nth i fr O) /\
    list_sum fr' = S (list_sum fr).
Proof.
  intros fr0. induction fr0 as [|c t IH]; intros k Hk; simpl in Hk; [lia|].
  destruct k as [|k]; simpl.
  - exists (S c :: t). split; [reflexivity|]. split; [reflexivity|].
    split; [|reflexivity]. intros [|i]; reflexivity.
  - destruct (IH k) as [t' [E [L [Hn Hs]]]]; [lia|].
    rewrite E. simpl. exists (c :: t'). split; [reflexivity|].
    split; [simpl; congruence|]. split; [|simpl; lia].
    intros [|i]; [reflexivity | apply Hn].
Qed.

Lemma count_loop_spec lo hi : forall samples fr,
  Forall (fun r => (lo <= r < hi)%Z) samples ->
  length fr = Z.to_nat (hi - lo) ->
  exists fr', count_loop (arange lo hi) samples fr = Ok fr' /\
    length fr' = length fr /\
    (forall i, (i < length fr)%nat ->
       nth i fr' O = (nth i fr O + count_occ Z.eq_dec samples (lo + Z.of_nat i)%Z)%nat) /\
    list_sum fr' = (list_sum fr + length samples)%nat.
Proof.
  intros samples. induction samples as [|r samples IH]; intros fr0 HR Hlen; simpl.
  - exists fr0. split; [reflexivity|]. split; [reflexivity|].
    split; [intros; lia | lia].
  - inversion HR as [|? ? Hr HR']; subst.
    rewrite index_arange by assumption. simpl.
    destruct (incr_at_spec fr0 (Z.to_nat (r - lo))) as [fr1 [E [L [Hn Hs]]]];
      [lia|].
    rewrite E. simpl.
    destruct (IH fr1 HR') as [fr' [E' [L' [Hn' Hs']]]]; [congruence|].
    exists fr'. split; [exact E'|]. split; [congruence|]. split; [|lia].
    intros i Hi. rewrite Hn' by congruence. rewrite Hn.
    destruct (Z.eq_dec r (lo + Z.of_nat i)) as [Er|Er];
      destruct (Nat.eqb_spec i (Z.to_nat (r - lo))) as [Ei|Ei]; lia.
Qed.

Lemma nth_repeat_O i k : nth i (repeat O k) O = O.
Proof. revert i. induction k; intros [|i]; simpl; auto. Qed.

Lemma list_sum_repeat_O k : list_sum (repeat O k) = O.
Proof. induction k; simpl; auto. Qed.

Lemma Rsum_scaled (fr : list nat) (N : nat) :
  Rsum (map (fun x => INR x / INR N) fr) = INR (list_sum fr) / INR N.
Proof.
  induction fr as [|c t IH]; simpl.
  - unfold Rdiv. lra.
  - rewrite IH, plus_INR. unfold Rdiv. lra.
Qed.

Lemma true_div_ok a b : b <> O -> true_div a b = Ok (Fin (INR a / INR b)).
Proof.
  intros H. unfold true_div. destruct (Nat.eqb_spec b 0); congruence.
Qed.

(** The empirical distribution of a non-empty sample set, step by step:
    the bounds, the support, the counts and the probabilities. *)
Lemma empirical_run (samples : list Z) :
  samples <> [] ->
  exists lo hi counts,
    np_minZ samples = Ok lo /\ np_maxZ samples = Ok hi /\
    In lo samples /\ In hi samples /\
    Forall (fun r => (lo <= r <= hi)%Z) samples /\
    length counts = Z.to_nat (hi + 1 - lo) /\
    (forall i, (i < length counts)%nat ->
       nth i counts O = count_occ Z.eq_dec samples (lo + Z.of_nat i)%Z) /\
    list_sum counts = length samples /\
    empirical samples
    = Ok (mkEmpirical (arange lo (hi + 1)) counts (length samples)
            (length (arange lo (hi + 1)))
            (map (fun x => Fin (INR x / INR (length samples))) counts)).
Proof.
  intros HR.
  destruct (np_minZ_spec samples HR) as [lo [Elo [Ilo Flo]]].
  destruct (np_maxZ_spec samples HR) as [hi [Ehi [Ihi Fhi]]].
  assert (Hrange : Forall (fun r => (lo <= r < hi + 1)%Z) samples).
  { rewrite Forall_forall in *. intros r Hr.
    specialize (Flo r Hr). specialize (Fhi r Hr). lia. }
  destruct (count_loop_spec lo (hi + 1) samples
              (repeat O (length (arange lo (hi + 1)))) Hrange)
    as [counts [Ec [Lc [Hn Hs]]]].
  { now rewrite repeat_length, arange_length. }
  rewrite repeat_length, arange_length in Lc.
  rewrite list_sum_repeat_O in Hs. simpl in Hs.
  assert (HN : length samples <> O) by (destruct samples; simpl; congruence).
  exists lo, hi, counts.
  split; [exact Elo|]. split; [exact Ehi|].
  split; [exact Ilo|]. split; [exact Ihi|]. split.
  { rewrite Forall_forall in *. intros r Hr.
    specialize (Flo r Hr). specialize (Fhi r Hr). lia. }
  split; [exact Lc|]. split.
  { intros i Hi. rewrite Hn by (rewrite repeat_length, arange_length; lia).
    now rewrite nth_repeat_O. }
  split; [exact Hs|].
  unfold empirical. rewrite Elo, Ehi. simpl. rewrite Ec. simpl.
  rewrite (mapM_ok _ (fun x => Fin (INR x / INR (length samples)))).
  - reflexivity.
  - intros a _. now apply true_div_ok.
Qed.

(** ** The computation on doubles *)

Lemma pyfloat_exact z : (Z.abs z <= two53)%Z -> pyfloat z = z.
Proof.
  intros H. unfold pyfloat. cbv zeta.
  destruct (Z.leb_spec (Z.abs z) two53); [reflexivity | lia].
Qed.

Lemma is_inf_small z : (Z.abs z < two63)%Z -> is_inf z = false.
Proof.
  intros H. unfold is_inf. apply Z.leb_gt.
  destruct (Z.eq_dec (Z.abs z) 0) as [E|E].
  - rewrite E. simpl. lia.
  - apply Z.log2_lt_pow2; [lia|].
    apply Z.lt_trans with two63; [exact H|].
    change two63 with (2 ^ 63)%Z. apply Z.pow_lt_mono_r; lia.
Qed.

(** Where nothing rounds [np.arange] holds the integers from [start] to
    [stop - 1]. *)
Lemma np_arange_exact start stop :
  (- two52 <= start <= two52)%Z -> (- two52 <= stop <= two52)%Z ->
  np_arange start stop = Ok (arange start stop).
Proof.
  intros H1 H2. unfold two52 in H1, H2. unfold np_arange.
  rewrite !is_inf_small by (unfold two63; lia). cbn [orb].
  rewrite (pyfloat_exact (stop - start)) by (unfold two53; lia).
  destruct (Z.leb_spec two63 (Z.abs (stop - start))) as [L|L];
    [unfold two63 in L; lia|].
  cbv zeta. rewrite (pyfloat_exact (start + 1)) by (unfold two53; lia).
  replace (start + 1 - start)%Z with 1%Z by lia.
  rewrite (pyfloat_exact 1) by (unfold two53; lia).
  f_equal. unfold arange. apply map_ext_in. intros i Hi. apply in_seq in Hi.
  destruct i as [|[|i]]; [lia | lia |].
  rewrite Z.mul_1_r.
  rewrite (pyfloat_exact (Z.of_nat (S (S i)))) by (unfold two53; lia).
  apply pyfloat_exact. unfold two53. lia.
Qed.

Lemma map_pyfloat_exact samples :
  exact_range samples -> map pyfloat samples = samples.
Proof.
  intros H. rewrite <- (map_id samples) at 2. apply map_ext_in.
  intros r Hr. unfold exact_range in H. rewrite Forall_forall in H.
  specialize (H r Hr). apply pyfloat_exact. unfold two52 in H. unfold two53. lia.
Qed.

(** On samples in the exact range the program computes what the
    computation on integers gives. *)
Lemma empirical_float_exact samples :
  exact_range samples -> empirical_float samples = empirical samples.
Proof.
  intros H. unfold empirical_float. cbv zeta.
  rewrite (map_pyfloat_exact _ H).
  destruct (list_eq_dec Z.eq_dec samples []) as [->|Hne]; [reflexivity|].
  destruct (np_minZ_spec samples Hne) as [lo [Elo [Ilo _]]].
  destruct (np_maxZ_spec samples Hne) as [hi [Ehi [Ihi _]]].
  unfold empirical. rewrite Elo, Ehi. cbn [bind].
  unfold exact_range in H. rewrite Forall_forall in H.
  pose proof (H lo Ilo) as Hlo. pose proof (H hi Ihi) as Hhi.
  unfold two52 in Hlo, Hhi.
  rewrite (pyfloat_exact (hi + 1)) by (unfold two53; lia).
  rewrite np_arange_exact by (unfold two52; lia).
  reflexivity.
Qed.

Lemma incr_at_inv : forall fr k fr',
  incr_at k fr = Ok fr' ->
  length fr' = length fr /\ list_sum fr' = S (list_sum fr).
Proof.
  intros fr0. induction fr0 as [|c t IH]; intros [|k] fr' H; simpl in H;
    try discriminate.
  - injection H as <-. split; reflexivity.
  - destruct (incr_at k t) as [t'|] eqn:E; cbn [bind] in H; [|discriminate].
    injection H as <-. destruct (IH k t' E) as [L S0].
    simpl. split; [congruence | lia].
Qed.

Lemma count_loop_inv (support : list Z) : forall samples fr fr',
  count_loop support samples fr = Ok fr' ->
  length fr' = length fr /\
  list_sum fr' = (list_sum fr + length samples)%nat /\
  (samples <> [] -> support <> []).
Proof.
  intros samples. induction samples as [|r t IH]; intros fr0 fr' H; simpl in H.
  - injection H as <-. split; [reflexivity|]. split; [simpl; lia | congruence].
  - destruct (index r support) as [k|] eqn:Ek; cbn [bind] in H; [|discriminate].
    destruct (incr_at k fr0) as [fr1|] eqn:Ei; cbn [bind] in H; [|discriminate].
    destruct (incr_at_inv fr0 k fr1 Ei) as [L1 S1].
    destruct (IH fr1 fr' H) as [L2 [S2 _]].
    split; [congruence|]. split; [simpl; lia|].
    intros _ ->. discriminate Ek.
Qed.

(** What every distribution the program builds looks like, rounding or
    not: the support is not empty, there is one count and one probability
    per support point, the counts add up to the number of samples and the
    probabilities are the counts over that number. *)
Lemma empirical_float_inv (samples : list Z) (e : empirical_dist) :
  empirical_float samples = Ok e ->
  samples <> [] /\ xs e <> [] /\ n e = length (xs e) /\
  length (fr e) = length (xs e) /\ N e = length samples /\
  list_sum (fr e) = length samples /\
  p e = map (fun c => Fin (INR c / INR (length samples))) (fr e).
Proof.
  unfold empirical_float. cbv zeta. intros H.
  assert (Hne : samples <> []) by (intros ->; discriminate H).
  assert (HN : length (map pyfloat samples) <> 0%nat).
  { rewrite length_map. destruct samples; [congruence | discriminate]. }
  destruct (np_minZ (map pyfloat samples)) as [lo|]; cbn [bind] in H;
    [|discriminate].
  destruct (np_maxZ (map pyfloat samples)) as [hi|]; cbn [bind] in H;
    [|discriminate].
  destruct (np_arange lo (pyfloat (hi + 1))) as [support|]; cbn [bind] in H;
    [|discriminate].
  destruct (count_loop support (map pyfloat samples)
              (repeat 0%nat (length support))) as [counts|] eqn:Ec;
    cbn [bind] in H; [|discriminate].
  rewrite (mapM_ok _ (fun x => Fin (INR x / INR (length (map pyfloat samples)))))
    in H by (intros a _; now apply true_div_ok).
  cbn [bind] in H. injection H as <-. cbn [xs fr N n p].
  destruct (count_loop_inv _ _ _ _ Ec) as [L [S0 Hs]].
  rewrite repeat_length in L. rewrite list_sum_repeat_O in S0.
  rewrite length_map in *.
  split; [exact Hne|]. split.
  { apply Hs. destruct samples; [congruence | discriminate]. }
  split; [reflexivity|]. split; [exact L|]. split; [reflexivity|].
  split; [exact S0 | reflexivity].
Qed.

(** The distribution of a non-empty sample set in the exact range, step
    by step. *)
Lemma empirical_float_run (samples : list Z) :
  samples <> [] -> exact_range samples ->
  exists lo hi counts,
    np_minZ samples = Ok lo /\ np_maxZ samples = Ok hi /\
    In lo samples /\ In hi samples /\
    Forall (fun r => (lo <= r <= hi)%Z) samples /\
    length counts = Z.to_nat (hi + 1 - lo) /\
    (forall i, (i < length counts)%nat ->
       nth i counts O = count_occ Z.eq_dec samples (lo + Z.of_nat i)%Z) /\
    list_sum counts = length samples /\
    empirical_float samples
    = Ok (mkEmpirical (arange lo (hi + 1)) counts (length samples)
            (length (arange lo (hi + 1)))
            (map (fun x => Fin (INR x / INR (length samples))) counts)).
Proof.
  intros Hne Hx. rewrite (empirical_float_exact samples Hx).
  exact (empirical_run samples Hne).
Qed.

(** C1 as amended.  For every non-empty integer sample set in the exact
    range (every sample from -2^52 up to, not including, 2^52) the program
    builds the empirical distribution without an exception; its support is
    the full contiguous integer range from the sample minimum [lo] to the
    sample maximum [hi]; the probability vector has length hi-lo+1, its
    entry at a support point is that point's observed count over the
    number of samples (so 0 for a point never observed), every entry is
    at least 0 and the entries sum to 1.  (The quotients and their sum are
    exact here; the program rounds each quotient to a double.  Storage is
    not bounded here; the program needs room for hi-lo+1 support
    points.) *)
Theorem empirical_support_and_probabilities (samples : list Z) :
  samples <> [] -> exact_range samples ->
  exists e lo hi,
    empirical_float samples = Ok e /\
    In lo samples /\ In hi samples /\ Forall (fun r => (lo <= r <= hi)%Z) samples /\
    xs e = arange lo (hi + 1) /\
    (forall z, In z (xs e) <-> (lo <= z <= hi)%Z) /\
    n e = Z.to_nat (hi - lo + 1) /\
    length (xs e) = n e /\
    length (p e) = n e /\
    N e = length samples /\
    (forall i, (i < n e)%nat ->
       nth i (xs e) 0%Z = (lo + Z.of_nat i)%Z /\
       nth i (p e) NaN =
         Fin (INR (count_occ Z.eq_dec samples (lo + Z.of_nat i)%Z) / INR (length samples))) /\
    prob_vector (p e) /\
    np_sum (p e) = Fin 1.
Proof.
  intros HR HX.
  destruct (empirical_float_run samples HR HX)
    as [lo [hi [counts [_ [_ [Ilo [Ihi [Fr [Lc [Hn [Hs Ee]]]]]]]]]]].
  assert (HN : length samples <> O) by (destruct samples; simpl; congruence).
  assert (HNpos : 0 < INR (length samples)) by (apply lt_0_INR; lia).
  eexists. exists lo, hi. split; [exact Ee|]. cbn [xs fr N n p].
  split; [exact Ilo|]. split; [exact Ihi|]. split; [exact Fr|].
  split; [reflexivity|]. split.
  { intros z. rewrite arange_In. lia. }
  split; [rewrite arange_length; f_equal; lia|].
  split; [reflexivity|].
  split; [rewrite length_map, Lc, arange_length; reflexivity|].
  split; [reflexivity|]. split.
  { intros i Hi. rewrite arange_length in Hi. split.
    - now apply arange_nth.
    - rewrite (nth_map_in _ counts i O) by lia.
      rewrite Hn by lia. reflexivity. }
  assert (Emap : map (fun x => Fin (INR x / INR (length samples))) counts
                 = map Fin (map (fun x => INR x / INR (length samples)) counts)).
  { now rewrite map_map. }
  assert (Esum : Rsum (map (fun x => INR x / INR (length samples)) counts) = 1).
  { rewrite Rsum_scaled, Hs. field. lra. }
  split.
  - exists (map (fun x => INR x / INR (length samples)) counts).
    split; [exact Emap|]. split; [|exact Esum].
    apply Forall_forall. intros r Hr. apply in_map_iff in Hr.
    destruct Hr as [c [Er _]]. subst r.
    apply Rmult_le_pos; [apply pos_INR|].
    left. now apply Rinv_0_lt_compat.
  - rewrite Emap, np_sum_Fin, Esum. reflexivity.
Qed.

Lemma exact_range_112223 : exact_range [1; 1; 2; 2; 2; 3]%Z.
Proof. unfold exact_range, two52. repeat constructor; lia. Qed.

(** A run of the theorem on the samples 1,1,2,2,2,3 of the specification. *)
Lemma empirical_support_and_probabilities_witness :
  [1; 1; 2; 2; 2; 3]%Z <> [] /\ exact_range [1; 1; 2; 2; 2; 3]%Z /\
  exists e lo hi,
    empirical_float [1; 1; 2; 2; 2; 3]%Z = Ok e /\
    In lo [1; 1; 2; 2; 2; 3]%Z /\ In hi [1; 1; 2; 2; 2; 3]%Z /\
    Forall (fun r => (lo <= r <= hi)%Z) [1; 1; 2; 2; 2; 3]%Z /\
    xs e = arange lo (hi + 1) /\
    (forall z, In z (xs e) <-> (lo <= z <= hi)%Z) /\
    n e = Z.to_nat (hi - lo + 1) /\
    length (xs e) = n e /\
    length (p e) = n e /\
    N e = length [1; 1; 2; 2; 2; 3]%Z /\
    (forall i, (i < n e)%nat ->
       nth i (xs e) 0%Z = (lo + Z.of_nat i)%Z /\
       nth i (p e) NaN =
         Fin (INR (count_occ Z.eq_dec [1; 1; 2; 2; 2; 3]%Z (lo + Z.of_nat i)%Z)
              / INR (length [1; 1; 2; 2; 2; 3]%Z))) /\
    prob_vector (p e) /\
    np_sum (p e) = Fin 1.
Proof.
  split; [discriminate|]. split; [exact exact_range_112223|].
  apply (empirical_support_and_probabilities [1; 1; 2; 2; 2; 3]%Z).
  - discriminate.
  - exact exact_range_112223.
Defined.

(** C1, counterexample.  From 2^53 on a double and its successor integer
    share one double: max + 1 rounds back to max.  On the single sample
    2^53 the support [np.arange(max, max)] is empty, and on the samples
    2^53 - 1, 2^53 it is the one point 2^53 - 1: in both cases the
    counting loop does not find the maximum in the support and
    [xs.index] raises [ValueError] (line 106).  No distribution is
    built. *)
Lemma empirical_float_beyond_two53 :
  pyfloat (two53 + 1) = two53 /\
  np_arange two53 (pyfloat (two53 + 1)) = Ok [] /\
  empirical_float [two53] = Raise ValueError /\
  np_arange (two53 - 1) (pyfloat (two53 + 1)) = Ok [(two53 - 1)%Z] /\
  empirical_float [(two53 - 1)%Z; two53] = Raise ValueError /\
  ~ (exists e, empirical_float [two53] = Ok e) /\
  ~ (exists e, empirical_float [(two53 - 1)%Z; two53] = Ok e).
Proof.
  assert (E1 : empirical_float [two53] = Raise ValueError)
    by (vm_compute; reflexivity).
  assert (E2 : empirical_float [(two53 - 1)%Z; two53] = Raise ValueError)
    by (vm_compute; reflexivity).
  split; [vm_compute; reflexivity|]. split; [vm_compute; reflexivity|].
  split; [exact E1|]. split; [vm_compute; reflexivity|].
  split; [exact E2|]. split.
  - intros [e He]. rewrite E1 in He. discriminate.
  - intros [e He]. rewrite E2 in He. discriminate.
Qed.

(** [pyfloat] against the kernel's conversion of integers to binary64, on
    integers around the powers of two where rounding starts and where its
    step doubles: the rounded integer is a double and converts to the same
    float as the integer itself. *)
Lemma pyfloat_agrees_with_binary64 :
  forallb (fun z => is_double (pyfloat z) &&
                    PrimFloat.eqb (F64.of_Z (pyfloat z)) (F64.of_Z z))
    [0; 1; 3; two52; two53 - 1; two53; two53 + 1; two53 + 2; two53 + 3;
     two53 + 5; two53 + 6; two53 + 7; 2 * two53 + 1; 2 * two53 + 2;
     2 * two53 + 3; 2 * two53 + 5; 2 * two53 + 6; 2 * two53 + 10;
     4 * two53 - 1; 4 * two53 + 4; 4 * two53 + 12; 123456789012345678901 / 100;
     two63 - 513; two63 - 1025; two63 - 1537]%Z
  = true.
Proof. vm_compute. reflexivity. Qed.

(** ** The reference values of the external functions *)

Lemma as_nat_INR k : as_nat (INR k) = Some k.
Proof.
  unfold as_nat.
  assert (E : up (INR k) = (Z.of_nat k + 1)%Z).
  { symmetry. apply tech_up; rewrite INR_IZR_INZ, plus_IZR; lra. }
  rewrite E.
  replace (Z.of_nat k + 1 - 1)%Z with (Z.of_nat k) by lia.
  rewrite <- INR_IZR_INZ.
  destruct (Req_dec_T (INR k) (INR k)) as [_|H]; [|congruence].
  destruct (Z.leb_spec 0 (Z.of_nat k)); [|lia].
  now rewrite Nat2Z.id.
Qed.

Lemma ref_binom_nat n k :
  binom ref_sf (of_nat n) (of_nat k) = of_nat (choose n k).
Proof.
  unfold binom, ufunc2, of_nat. simpl. now rewrite !as_nat_INR.
Qed.

Lemma ref_beta_nat p q :
  beta ref_sf (of_nat (S p)) (of_nat (S q))
  = Fin (INR (fact p * fact q) / INR (fact (p + q + 1))).
Proof.
  unfold beta, ufunc2, of_nat. cbn [cephes_beta ref_sf ref_beta].
  now rewrite !as_nat_INR.
Qed.

Lemma Fin_of_nat r k : r = INR k -> Fin r = of_nat k.
Proof. intros ->. reflexivity. Qed.

Lemma of_Z_nat k : of_Z (Z.of_nat k) = of_nat k.
Proof. unfold of_Z, of_nat. now rewrite INR_IZR_INZ. Qed.

Lemma nadd_of_nat a b : nadd (of_nat a) (of_nat b) = of_nat (a + b).
Proof. unfold of_nat. simpl. now rewrite plus_INR. Qed.

Lemma nsub_of_nat a b :
  (b <= a)%nat -> nsub (of_nat a) (of_nat b) = of_nat (a - b).
Proof. intros H. unfold of_nat, nsub. simpl. now rewrite minus_INR. Qed.

(** ** ModelLibrary *)

(** C10.  The extended beta-binomial evaluator, called with n set to the
    length of x, returns the vector of the mandatory evaluator: same
    length, same entry at every position. *)
Theorem betaBinomN_len_agrees (sf : special_functions) (x : list num) (a b : num) :
  betaBinomN sf x (of_nat (length x)) a b = betaBinom sf x a b /\
  length (betaBinomN sf x (of_nat (length x)) a b) = length x /\
  forall i d,
    nth i (betaBinomN sf x (of_nat (length x)) a b) d
    = nth i (betaBinom sf x a b) d.
Proof.
  assert (E : betaBinomN sf x (of_nat (length x)) a b = betaBinom sf x a b).
  { unfold betaBinomN, betaBinom. reflexivity. }
  split; [exact E|]. split.
  - unfold betaBinomN. apply length_map.
  - intros i d. now rewrite E.
Qed.

(** C2 as amended.  The beta-binomial evaluator computes
    C(n, x) B(a+x, b+n-x) / B(a, b) with n the length of the vector it is
    given, at the values x of that vector themselves: the orchestrator
    passes the raw integer support values, so position i is evaluated at
    lo + i.  The values are the rank offsets 0 .. n-1, and the result is
    the rank form, when the support starts at 0. *)
Theorem betaBinom_at_raw_values (sf : special_functions) (lo hi : Z) (a b : num) :
  let x := map of_Z (arange lo hi) in
  let n := of_nat (length x) in
  length (betaBinom sf x a b) = length x /\
  (forall i, (i < length x)%nat ->
     nth i (betaBinom sf x a b) NaN =
       let v := of_Z (lo + Z.of_nat i) in
       ndiv (nmul (binom sf n v) (beta sf (nadd a v) (nsub (nadd b n) v)))
            (beta sf a b)) /\
  betaBinom sf (map of_Z (arange 0 hi)) a b
  = betaBinom_rank sf (map of_Z (arange 0 hi)) a b.
Proof.
  intros x n. split; [apply length_map|]. split.
  - intros i Hi. unfold betaBinom. fold x. fold n.
    rewrite (nth_map_in _ x i NaN) by exact Hi.
    unfold x at 1 2 3. unfold x in Hi. rewrite length_map in Hi.
    rewrite (nth_map_in of_Z _ i 0%Z) by exact Hi.
    rewrite arange_length in Hi. rewrite arange_nth by exact Hi.
    reflexivity.
  - unfold betaBinom, betaBinom_rank, range, arange.
    rewrite !length_map, length_seq, !map_map.
    apply map_ext. intros k. simpl.
    replace (of_Z (Z.of_nat k)) with (of_nat k); [reflexivity|].
    unfold of_Z, of_nat. now rewrite INR_IZR_INZ.
Qed.

(** C2, counterexample.  On the support 1,2 with a = 2 and b = 1 the
    evaluator returns 1/3 at the first point (C(2,1) B(3,2) / B(2,1)),
    where the rank offset 0 gives 1/6 (C(2,0) B(2,3) / B(2,1)). *)
Lemma betaBinom_not_rank_offsets :
  betaBinom ref_sf (map of_Z [1; 2]%Z) (Fin 2) (Fin 1)
  <> betaBinom_rank ref_sf (map of_Z [1; 2]%Z) (Fin 2) (Fin 1).
Proof.
  intros H.
  assert (H0 : nth 0 (betaBinom ref_sf (map of_Z [1; 2]%Z) (Fin 2) (Fin 1)) NaN
             = nth 0 (betaBinom_rank ref_sf (map of_Z [1; 2]%Z) (Fin 2) (Fin 1)) NaN)
    by now rewrite H.
  clear H. unfold betaBinom, betaBinom_rank, range in H0.
  change [1; 2]%Z with [Z.of_nat 1; Z.of_nat 2] in H0.
  cbn [map length seq nth] in H0.
  rewrite (Fin_of_nat 2 2), (Fin_of_nat 1 1) in H0 by (simpl; lra).
  rewrite !of_Z_nat, !nadd_of_nat in H0.
  rewrite !nsub_of_nat in H0 by (simpl; lia).
  cbn [Nat.add Nat.sub] in H0.
  rewrite !ref_binom_nat, !ref_beta_nat in H0.
  unfold of_nat, ndiv, nmul, Rzero in H0. simpl in H0.
  repeat match type of H0 with
         | context [Req_dec_T ?u 0] =>
             destruct (Req_dec_T u 0) as [Hz|_]; [lra|]
         end.
  injection H0 as H0. lra.
Qed.

Lemma zeta_minus_one (sf : special_functions) (c : num) :
  nsub (zeta sf c) (Fin 1) = zetac sf c.
Proof.
  unfold zeta, nsub. destruct (zetac sf c); simpl; try reflexivity.
  f_equal. lra.
Qed.

Lemma nmul_minus_one (c : num) : nmul (Fin (-1)) c = nopp c.
Proof.
  destruct c; simpl; try reflexivity.
  - f_equal. lra.
  - unfold scale_inf, Rzero, Rneg.
    destruct (Req_dec_T (-1) 0); [lra|]. destruct (Rlt_dec (-1) 0); [reflexivity|lra].
  - unfold scale_inf, Rzero, Rneg.
    destruct (Req_dec_T (-1) 0); [lra|]. destruct (Rlt_dec (-1) 0); [reflexivity|lra].
Qed.

(** What [zipfDist] computes for any external functions: x^(-c) divided
    by [zetac(c)], that is by zeta(c) - 1, at the values of [x]. *)
Lemma zipfDist_divides_by_zetac (sf : special_functions) (x : list num) (c : num) :
  zipfDist sf x c
  = map (fun xx => ndiv (float_pow sf xx (nopp c)) (nsub (zeta sf c) (Fin 1))) x.
Proof.
  unfold zipfDist. rewrite map_map, zeta_minus_one.
  apply map_ext. intros xx. now rewrite nmul_minus_one.
Qed.

Lemma PI_sq_gt_6 : 6 < PI * PI.
Proof. pose proof PI2_3_2 as H. nra. Qed.

Lemma ref_pow_one (y : R) : ref_pow (Fin 1) (Fin y) = Fin 1.
Proof.
  unfold ref_pow. destruct (Rlt_dec 0 1) as [_|H]; [|lra].
  f_equal. unfold Rpower. rewrite ln_1, Rmult_0_r. apply exp_0.
Qed.

(** C3, the code at x = [1], c = 2.  The evaluator returns
    1 / (pi^2/6 - 1), about 1.55, where x^(-c) / zeta(c) is
    1 / (pi^2/6), about 0.61: the divisor is [zetac(2)] = zeta(2) - 1,
    not zeta(2). *)
Theorem zipfDist_uses_zeta_minus_one :
  zipfDist ref_sf [Fin 1] (Fin 2) = [Fin (1 / (PI * PI / 6 - 1))] /\
  zipf_formula ref_sf [Fin 1] (Fin 2) = [Fin (1 / (PI * PI / 6))] /\
  zipfDist ref_sf [Fin 1] (Fin 2) <> zipf_formula ref_sf [Fin 1] (Fin 2).
Proof.
  pose proof PI_sq_gt_6 as HPI.
  assert (Ez : zetac ref_sf (Fin 2) = Fin (PI * PI / 6 - 1)).
  { unfold zetac, ufunc1. simpl.
    destruct (Req_dec_T 2 2) as [_|H]; [reflexivity|lra]. }
  assert (E1 : zipfDist ref_sf [Fin 1] (Fin 2) = [Fin (1 / (PI * PI / 6 - 1))]).
  { rewrite zipfDist_divides_by_zetac, zeta_minus_one, Ez.
    cbn [map nopp float_pow ref_sf]. rewrite ref_pow_one.
    unfold ndiv, Rzero.
    destruct (Req_dec_T (PI * PI / 6 - 1) 0) as [H|_]; [lra|reflexivity]. }
  assert (E2 : zipf_formula ref_sf [Fin 1] (Fin 2) = [Fin (1 / (PI * PI / 6))]).
  { unfold zipf_formula, zeta. rewrite Ez.
    cbn [map nopp float_pow ref_sf nadd]. rewrite ref_pow_one.
    unfold ndiv, Rzero.
    destruct (Req_dec_T (PI * PI / 6 - 1 + 1) 0) as [H|_]; [lra|].
    do 3 f_equal. lra. }
  split; [exact E1|]. split; [exact E2|].
  rewrite E1, E2. intros H. injection H as H.
  assert (Hlt : / (PI * PI / 6) < / (PI * PI / 6 - 1)).
  { apply Rinv_lt_contravar; nra. }
  unfold Rdiv in H. rewrite !Rmult_1_l in H. lra.
Qed.

(** ** Index loops as maps over the zipped vectors *)

Lemma mapM_seq {A B} (f : nat -> res B) (g : A -> B) :
  forall (l : list A) s,
    (forall i a, nth_error l i = Some a -> f (s + i)%nat = Ok (g a)) ->
    mapM f (seq s (length l)) = Ok (map g l).
Proof.
  intros l. induction l as [|a t IH]; intros s H; simpl; [reflexivity|].
  rewrite <- (Nat.add_0_r s) at 1. rewrite (H O a eq_refl). simpl.
  rewrite (IH (S s)); [reflexivity|].
  intros i b Hi. replace (S s + i)%nat with (s + S i)%nat by lia.
  apply H. exact Hi.
Qed.

Lemma nth_error_combine {A B} :
  forall (l1 : list A) (l2 : list B) i a b,
    nth_error (combine l1 l2) i = Some (a, b) ->
    nth_error l1 i = Some a /\ nth_error l2 i = Some b.
Proof.
  intros l1. induction l1 as [|x t IH]; intros [|y u] [|i] a b H;
    simpl in *; try discriminate.
  - injection H as -> ->. auto.
  - now apply IH.
Qed.

Lemma combine_same_length {A B} (l1 : list A) (l2 : list B) :
  length l1 = length l2 -> length (combine l1 l2) = length l1.
Proof. intros H. rewrite length_combine, <- H. apply Nat.min_id. Qed.

Lemma getitem_combine {A B} (l1 : list A) (l2 : list B) i oe :
  nth_error (combine l1 l2) i = Some oe ->
  getitem l1 i = Ok (fst oe) /\ getitem l2 i = Ok (snd oe).
Proof.
  destruct oe as [a b]. intros H.
  apply nth_error_combine in H. destruct H as [H1 H2].
  unfold getitem. now rewrite H1, H2.
Qed.

Lemma mapM_zip (h : num -> num -> num) (O E : list num) :
  length O = length E ->
  mapM (fun i => o <- getitem O i ;; e <- getitem E i ;; Ok (h o e))
       (range (length O))
  = Ok (zip_with h O E).
Proof.
  intros H. unfold range, zip_with.
  rewrite <- (combine_same_length O E H).
  apply mapM_seq. intros i oe Hi. simpl.
  destruct (getitem_combine O E i oe Hi) as [H1 H2].
  now rewrite H1, H2.
Qed.

Lemma mapM_each (g : num -> num) (O : list num) :
  mapM (fun i => o <- getitem O i ;; Ok (g o)) (range (length O))
  = Ok (map g O).
Proof.
  unfold range. apply mapM_seq. intros i a Hi. simpl.
  unfold getitem. now rewrite Hi.
Qed.

Lemma chi_loop_seq (O E : list num) :
  forall (l : list (num * num)) s acc,
    (forall i oe, nth_error l i = Some oe ->
       getitem O (s + i)%nat = Ok (fst oe) /\ getitem E (s + i)%nat = Ok (snd oe)) ->
    chi_loop O E (seq s (length l)) acc
    = Ok (nadd acc (nsum (map (fun oe => chi_term (fst oe) (snd oe)) l))).
Proof.
  intros l. induction l as [|oe t IH]; intros s acc H; simpl.
  - now rewrite nadd_0_r.
  - destruct (H 0%nat oe eq_refl) as [H1 H2]. rewrite Nat.add_0_r in H1, H2.
    rewrite H1, H2. simpl. rewrite (IH (S s)).
    + unfold chi_term. now rewrite nadd_assoc.
    + intros i b Hi. replace (S s + i)%nat with (s + S i)%nat by lia.
      apply H. exact Hi.
Qed.

Lemma chiSquare_formula (O E : list num) :
  length O = length E -> chiSquare O E = Ok (chi_formula O E).
Proof.
  intros H. unfold chiSquare, chi_formula, range, zip_with.
  rewrite <- (combine_same_length O E H).
  rewrite (chi_loop_seq O E (combine O E) 0%nat (Fin 0)).
  - now rewrite nadd_0_l.
  - intros i oe Hi. simpl. now apply getitem_combine.
Qed.

Lemma mapM_sq_err (O E : list num) :
  length O = length E ->
  mapM (sq_err O E) (range (length O)) = Ok (zip_with sq_diff O E).
Proof. intros H. exact (mapM_zip sq_diff O E H). Qed.

Lemma RSquare_closed (O E : list num) :
  length O = length E ->
  RSquare O E
  = Ok (nsub (Fin 1)
          (ndiv (np_sum (zip_with sq_diff O E))
                (np_sum (map (fun o => nsq (nsub o (np_mean O))) O)))).
Proof.
  intros H. unfold RSquare.
  rewrite (mapM_sq_err O E H). simpl.
  rewrite (mapM_each (fun o => nsq (nsub o (np_mean O))) O). reflexivity.
Qed.

Lemma RMSE_closed (O E : list num) :
  length O = length E ->
  RMSE O E = Ok (nsqrt (np_mean (zip_with sq_diff O E))).
Proof.
  intros H. unfold RMSE.
  rewrite (mapM_sq_err O E H). reflexivity.
Qed.

Lemma cumsum_from_length l : forall acc, length (cumsum_from acc l) = length l.
Proof. induction l as [|x t IH]; intros acc; simpl; auto. Qed.

Lemma np_cumsum_length l : length (np_cumsum l) = length l.
Proof. destruct l; simpl; [reflexivity|]. now rewrite cumsum_from_length. Qed.

Lemma KS_closed (O E : list num) :
  length O = length E ->
  KS O E = np_max (zip_with abs_diff (np_cumsum O) (np_cumsum E)).
Proof.
  intros H. unfold KS.
  rewrite <- (np_cumsum_length O) at 1.
  assert (L : length (np_cumsum O) = length (np_cumsum E))
    by now rewrite !np_cumsum_length.
  pose proof (mapM_zip abs_diff (np_cumsum O) (np_cumsum E) L) as M.
  unfold abs_diff in M at 1. cbv zeta. rewrite M. reflexivity.
Qed.

Lemma zip_with_length h O E :
  length O = length E -> length (zip_with h O E) = length O.
Proof. intros H. unfold zip_with. now rewrite length_map, combine_same_length. Qed.

(** ** Finite vectors *)

Lemma finite_vec_reals v : finite_vec v -> exists rs, v = map Fin rs.
Proof.
  induction 1 as [|x t Hx _ [rs IH]].
  - now exists [].
  - destruct x as [r| | |]; try discriminate.
    exists (r :: rs). simpl. now rewrite IH.
Qed.

Lemma map_Fin_inj rs ss : map Fin rs = map Fin ss -> rs = ss.
Proof.
  revert ss. induction rs as [|r t IH]; intros [|s u] H; simpl in H;
    try discriminate; [reflexivity|].
  injection H as -> H. now rewrite (IH u H).
Qed.

(** The squared differences of two real vectors. *)
Lemma zip_sq_diff_Fin os es :
  zip_with sq_diff (map Fin os) (map Fin es)
  = map Fin (map (fun oe => (fst oe - snd oe) * (fst oe - snd oe)) (combine os es)).
Proof.
  unfold zip_with. revert es.
  induction os as [|a t IH]; intros [|b u]; simpl; try reflexivity.
  rewrite IH. reflexivity.
Qed.

Lemma Rsum_squares_nonneg os es :
  0 <= Rsum (map (fun oe => (fst oe - snd oe) * (fst oe - snd oe)) (combine os es)).
Proof.
  apply Rsum_nonneg. apply Forall_forall. intros r Hr.
  apply in_map_iff in Hr. destruct Hr as [[a b] [<- _]].
  cbn [fst snd]. apply Rle_0_sqr.
Qed.

Lemma Rsum_squares_zero os : forall es,
  length os = length es ->
  Rsum (map (fun oe => (fst oe - snd oe) * (fst oe - snd oe)) (combine os es)) = 0 ->
  os = es.
Proof.
  induction os as [|a t IH]; intros [|b u] L H; simpl in *;
    try discriminate; [reflexivity|].
  pose proof (Rsum_squares_nonneg t u) as Hs.
  pose proof (Rle_0_sqr (a - b)) as Hq. unfold Rsqr in Hq.
  assert (Ha : (a - b) * (a - b) = 0) by lra.
  assert (Hab : a = b).
  { apply Rmult_integral in Ha. destruct Ha; lra. }
  subst b. f_equal. apply IH; [lia | lra].
Qed.

Lemma Rsum_squares_same os :
  Rsum (map (fun oe => (fst oe - snd oe) * (fst oe - snd oe)) (combine os os)) = 0.
Proof. induction os as [|a t IH]; simpl; [reflexivity|]. rewrite IH. lra. Qed.

Lemma np_mean_Fin rs :
  rs <> [] -> np_mean (map Fin rs) = Fin (Rsum rs / INR (length rs)).
Proof.
  intros H. unfold np_mean. rewrite np_sum_Fin, length_map.
  unfold of_nat, ndiv, Rzero.
  destruct (Req_dec_T (INR (length rs)) 0) as [E|_]; [|reflexivity].
  destruct rs as [|r t]; [congruence|].
  exfalso. revert E. apply not_0_INR. discriminate.
Qed.

Lemma cumsum_from_finite l : forall acc,
  is_finite acc = true -> finite_vec l -> finite_vec (cumsum_from acc l).
Proof.
  induction l as [|x t IH]; intros acc Ha Hl; simpl; [constructor|].
  inversion Hl as [|? ? Hx Ht]; subst.
  assert (Hs : is_finite (nadd acc x) = true)
    by (destruct acc, x; simpl in *; congruence).
  constructor; [exact Hs | now apply IH].
Qed.

Lemma np_cumsum_finite l : finite_vec l -> finite_vec (np_cumsum l).
Proof.
  intros H. destruct l as [|x t]; simpl; [constructor|].
  inversion H; subst. constructor; [assumption|].
  now apply cumsum_from_finite.
Qed.

Lemma zip_abs_diff_nonneg a b :
  finite_vec a -> finite_vec b -> Forall nonneg_fin (zip_with abs_diff a b).
Proof.
  intros Ha. revert b. unfold zip_with.
  induction Ha as [|x t Hx Ht IH]; intros b Hb; simpl; [constructor|].
  destruct Hb as [|y u Hy Hu]; simpl; [constructor|].
  constructor; [|now apply IH].
  destruct x, y; try discriminate. simpl.
  eexists. split; [reflexivity | apply Rabs_pos].
Qed.

Lemma fold_nmax_nonneg t : forall x,
  nonneg_fin x -> Forall nonneg_fin t -> nonneg_fin (fold_left nmax t x).
Proof.
  induction t as [|y u IH]; intros x Hx Ht; simpl; [exact Hx|].
  inversion Ht as [|? ? Hy Hu]; subst. apply IH; [|exact Hu].
  destruct Hx as [a [-> Ha]], Hy as [b [-> Hb]]. simpl.
  eexists. split; [reflexivity|].
  apply Rle_trans with a; [exact Ha | apply Rmax_l].
Qed.

Lemma np_max_nonneg l :
  l <> [] -> Forall nonneg_fin l -> exists k, np_max l = Ok (Fin k) /\ 0 <= k.
Proof.
  intros Hl H. destruct l as [|x t]; [congruence|].
  inversion H as [|? ? Hx Ht]; subst.
  destruct (fold_nmax_nonneg t x Hx Ht) as [k [E Hk]].
  exists k. simpl. now rewrite E.
Qed.

Lemma RMSE_reals os es :
  os <> [] -> length os = length es ->
  RMSE (map Fin os) (map Fin es)
  = Ok (Fin (sqrt (Rsum (map (fun oe => (fst oe - snd oe) * (fst oe - snd oe))
                            (combine os es))
                   / INR (length os)))).
Proof.
  intros Hne L.
  rewrite RMSE_closed by now rewrite !length_map.
  rewrite zip_sq_diff_Fin.
  assert (Hlen : length (map (fun oe : R * R => (fst oe - snd oe) * (fst oe - snd oe))
                           (combine os es)) = length os)
    by now rewrite length_map, combine_same_length.
  rewrite np_mean_Fin.
  2:{ intros E. rewrite E in Hlen. destruct os; [congruence | discriminate]. }
  rewrite Hlen. unfold nsqrt, Rneg.
  match goal with |- context [Rlt_dec ?u 0] => destruct (Rlt_dec u 0) as [Hn|_] end;
    [|reflexivity].
  exfalso.
  pose proof (Rsum_squares_nonneg os es) as Hs.
  assert (Hp : 0 < INR (length os)).
  { apply lt_0_INR. destruct os; [congruence | simpl; lia]. }
  assert (0 <= Rsum (map (fun oe => (fst oe - snd oe) * (fst oe - snd oe))
                        (combine os es)) / INR (length os)).
  { apply Rmult_le_pos; [exact Hs|]. left. now apply Rinv_0_lt_compat. }
  lra.
Qed.

Lemma KS_finite (O E : list num) :
  O <> [] -> length O = length E -> finite_vec O -> finite_vec E ->
  exists k, KS O E = Ok (Fin k) /\ 0 <= k.
Proof.
  intros Hne L HO HE. rewrite KS_closed by exact L.
  apply np_max_nonneg.
  - intros Hz. apply (f_equal (@length num)) in Hz.
    rewrite zip_with_length in Hz by now rewrite !np_cumsum_length.
    rewrite np_cumsum_length in Hz. destruct O; [congruence | discriminate].
  - apply zip_abs_diff_nonneg; now apply np_cumsum_finite.
Qed.

(** ** GoodnessOfFit *)

Lemma chi_term_zero_divisor (a : R) :
  chi_term (Fin a) (Fin 0) = if Rzero a then NaN else PInf.
Proof.
  unfold chi_term, nsq, nsub, ndiv. simpl.
  unfold Rzero at 1. destruct (Req_dec_T 0 0) as [_|H]; [|lra].
  unfold scale_inf, Rzero, Rneg.
  destruct (Req_dec_T a 0) as [Ea|Ea].
  - destruct (Req_dec_T ((a + - 0) * (a + - 0)) 0) as [_|H]; [reflexivity|].
    exfalso. apply H. subst a. lra.
  - destruct (Req_dec_T ((a + - 0) * (a + - 0)) 0) as [H|_].
    + exfalso. apply Rmult_integral in H. destruct H; lra.
    + destruct (Rlt_dec ((a + - 0) * (a + - 0)) 0) as [H|_]; [|reflexivity].
      pose proof (Rle_0_sqr (a + - 0)) as Hq. unfold Rsqr in Hq. lra.
Qed.

Lemma chi_term_zero_not_finite (o : num) : is_finite (chi_term o (Fin 0)) = false.
Proof.
  destruct o as [a| | |].
  - rewrite chi_term_zero_divisor. now destruct (Rzero a).
  - unfold chi_term, nsq, nsub, ndiv, Rneg. simpl.
    destruct (Rlt_dec 0 0); [lra | reflexivity].
  - unfold chi_term, nsq, nsub, ndiv, Rneg. simpl.
    destruct (Rlt_dec 0 0); [lra | reflexivity].
  - reflexivity.
Qed.

Lemma nsum_not_finite l x :
  In x l -> is_finite x = false -> is_finite (nsum l) = false.
Proof.
  unfold nsum. induction l as [|y t IH]; intros Hin Hx; [destruct Hin|].
  simpl. destruct (is_finite (nadd y (fold_right nadd (Fin 0) t))) eqn:F;
    [|reflexivity].
  apply nadd_finite in F. destruct F as [Fy Ft].
  destruct Hin as [->|Hin]; [congruence|].
  rewrite (IH Hin Hx) in Ft. discriminate.
Qed.

Lemma In_combine_right {A B} (l1 : list A) : forall (l2 : list B) b,
  length l1 = length l2 -> In b l2 -> exists a, In (a, b) (combine l1 l2).
Proof.
  induction l1 as [|x t IH]; intros [|y u] b L H; simpl in *;
    try discriminate; [destruct H|].
  destruct H as [->|H].
  - exists x. now left.
  - destruct (IH u b) as [a Ha]; [lia | exact H|]. exists a. now right.
Qed.

Lemma chi_formula_zero_divisor (O E : list num) :
  length O = length E -> In (Fin 0) E -> is_finite (chi_formula O E) = false.
Proof.
  intros L H. destruct (In_combine_right O E (Fin 0) L H) as [o Ho].
  unfold chi_formula, zip_with.
  apply (nsum_not_finite _ (chi_term o (Fin 0))).
  - apply in_map_iff. exists (o, Fin 0). split; [reflexivity | exact Ho].
  - apply chi_term_zero_not_finite.
Qed.

(** On vectors of one length that are not empty no metric raises. *)
Lemma metrics_return (O E : list num) :
  O <> [] -> length O = length E ->
  exists c r m k,
    chiSquare O E = Ok c /\ RSquare O E = Ok r /\
    RMSE O E = Ok m /\ KS O E = Ok k.
Proof.
  intros Hne L.
  rewrite chiSquare_formula, RSquare_closed, RMSE_closed, KS_closed by exact L.
  destruct (zip_with abs_diff (np_cumsum O) (np_cumsum E)) as [|d ds] eqn:Z.
  - exfalso. apply (f_equal (@length num)) in Z.
    rewrite zip_with_length in Z by now rewrite !np_cumsum_length.
    rewrite np_cumsum_length in Z. destruct O; [congruence | discriminate].
  - simpl. eauto 10.
Qed.

(** C5.  For two vectors of one length [chiSquare] returns the sum over i
    of (O_i - E_i)^2 / E_i.  The term of a zero E_i is not guarded: it is
    NaN when O_i is 0 as well and an infinity otherwise, never a finite
    number and never an exception, and it makes the whole sum non-finite.
    The other three metrics of the same vectors still return, and with
    finite values for RMSE and KS when the vectors are finite. *)
Theorem chiSquare_propagates_zero_division (O E : list num) :
  length O = length E ->
  chiSquare O E = Ok (chi_formula O E) /\
  (forall a, chi_term (Fin a) (Fin 0) = if Rzero a then NaN else PInf) /\
  (forall o, is_finite (chi_term o (Fin 0)) = false) /\
  (In (Fin 0) E ->
     is_finite (chi_formula O E) = false /\
     (exists r m k, RSquare O E = Ok r /\ RMSE O E = Ok m /\ KS O E = Ok k) /\
     (finite_vec O -> finite_vec E ->
        exists m k, RMSE O E = Ok (Fin m) /\ KS O E = Ok (Fin k))).
Proof.
  intros L. split; [now apply chiSquare_formula|].
  split; [exact chi_term_zero_divisor|].
  split; [exact chi_term_zero_not_finite|].
  intros Hz.
  assert (Hne : O <> []).
  { intros ->. destruct E; [destruct Hz | discriminate]. }
  split; [now apply chi_formula_zero_divisor|]. split.
  - destruct (metrics_return O E Hne L) as [c [r [m [k [_ [Hr [Hm Hk]]]]]]].
    exists r, m, k. auto.
  - intros HO HE.
    destruct (finite_vec_reals O HO) as [os ->].
    destruct (finite_vec_reals E HE) as [es ->].
    rewrite !length_map in L.
    assert (Hos : os <> []) by (intros ->; now apply Hne).
    rewrite (RMSE_reals os es Hos L).
    destruct (KS_finite (map Fin os) (map Fin es)) as [k [Hk _]]; auto.
    { now rewrite !length_map. }
    eauto.
Qed.

(** The theorem on the observed vector 1/2, 1/2 against the expected
    vector 0, 1. *)
Lemma chiSquare_propagates_zero_division_witness :
  length [Fin (1/2); Fin (1/2)] = length [Fin 0; Fin 1] /\
  In (Fin 0) [Fin 0; Fin 1] /\
  chiSquare [Fin (1/2); Fin (1/2)] [Fin 0; Fin 1]
  = Ok (chi_formula [Fin (1/2); Fin (1/2)] [Fin 0; Fin 1]) /\
  is_finite (chi_formula [Fin (1/2); Fin (1/2)] [Fin 0; Fin 1]) = false.
Proof.
  split; [reflexivity|]. split; [now left|].
  destruct (chiSquare_propagates_zero_division
              [Fin (1/2); Fin (1/2)] [Fin 0; Fin 1] eq_refl)
    as [H1 [_ [_ H2]]].
  split; [exact H1|]. apply H2. now left.
Defined.

(** C8 as amended.  In exact real arithmetic (no rounding, no underflow,
    no overflow): for two finite vectors of one length that are not empty,
    RMSE and the Kolmogorov-Smirnov statistic are finite and at least 0,
    and RMSE is 0 exactly when the vectors are equal.  On doubles the
    "only when" fails, as the counterexample below shows. *)
Theorem RMSE_KS_nonneg (O E : list num) :
  O <> [] -> length O = length E -> finite_vec O -> finite_vec E ->
  exists r k,
    RMSE O E = Ok (Fin r) /\ 0 <= r /\ (r = 0 <-> O = E) /\
    KS O E = Ok (Fin k) /\ 0 <= k.
Proof.
  intros Hne L HO HE.
  destruct (KS_finite O E Hne L HO HE) as [k [Hk Hk0]].
  destruct (finite_vec_reals O HO) as [os Eo].
  destruct (finite_vec_reals E HE) as [es Ee]. subst O E.
  rewrite !length_map in L.
  assert (Hos : os <> []) by (intros ->; now apply Hne).
  assert (Hp : 0 < INR (length os)).
  { apply lt_0_INR. destruct os; [congruence | simpl; lia]. }
  pose proof (Rsum_squares_nonneg os es) as Hs.
  eexists. exists k. split; [apply (RMSE_reals os es Hos L)|].
  split; [apply sqrt_pos|]. split; [|split; assumption].
  split.
  - intros H0. f_equal. apply Rsum_squares_zero; [exact L|].
    apply sqrt_eq_0 in H0.
    + apply (Rmult_eq_compat_r (INR (length os))) in H0.
      unfold Rdiv in H0. rewrite Rmult_assoc, Rinv_l, Rmult_1_r, Rmult_0_l in H0;
        [exact H0 | lra].
    + apply Rmult_le_pos; [exact Hs|]. left. now apply Rinv_0_lt_compat.
  - intros H0. apply map_Fin_inj in H0. subst es.
    rewrite Rsum_squares_same. unfold Rdiv. rewrite Rmult_0_l. apply sqrt_0.
Qed.

(** The theorem on the probabilities 1/3, 1/2, 1/6 of the specification's
    example against the uniform density. *)
Lemma RMSE_KS_nonneg_witness :
  [Fin (1/3); Fin (1/2); Fin (1/6)] <> [] /\
  length [Fin (1/3); Fin (1/2); Fin (1/6)]
  = length [Fin (1/3); Fin (1/3); Fin (1/3)] /\
  finite_vec [Fin (1/3); Fin (1/2); Fin (1/6)] /\
  finite_vec [Fin (1/3); Fin (1/3); Fin (1/3)] /\
  exists r k,
    RMSE [Fin (1/3); Fin (1/2); Fin (1/6)] [Fin (1/3); Fin (1/3); Fin (1/3)]
    = Ok (Fin r) /\ 0 <= r /\
    (r = 0 <-> [Fin (1/3); Fin (1/2); Fin (1/6)] = [Fin (1/3); Fin (1/3); Fin (1/3)]) /\
    KS [Fin (1/3); Fin (1/2); Fin (1/6)] [Fin (1/3); Fin (1/3); Fin (1/3)]
    = Ok (Fin k) /\ 0 <= k.
Proof.
  assert (F1 : finite_vec [Fin (1/3); Fin (1/2); Fin (1/6)])
    by (repeat constructor).
  assert (F2 : finite_vec [Fin (1/3); Fin (1/3); Fin (1/3)])
    by (repeat constructor).
  split; [discriminate|]. split; [reflexivity|].
  split; [exact F1|]. split; [exact F2|].
  apply (RMSE_KS_nonneg [Fin (1/3); Fin (1/2); Fin (1/6)]
           [Fin (1/3); Fin (1/3); Fin (1/3)]);
    [discriminate | reflexivity | exact F1 | exact F2].
Defined.

(** On the two empty vectors (equal length, every entry finite) RMSE is
    NaN, the mean of an empty list, and KS raises [ValueError], the
    maximum of an empty list.  The orchestrator never passes them: its
    vectors have the length n >= 1. *)
Lemma RMSE_KS_empty_vectors :
  RMSE [] [] = Ok NaN /\
  KS [] [] = Raise ValueError /\
  ~ (exists r k, RMSE [] [] = Ok (Fin r) /\ 0 <= r /\ (r = 0 <-> @nil num = [])
                 /\ KS [] [] = Ok (Fin k) /\ 0 <= k).
Proof.
  assert (E1 : RMSE [] [] = Ok NaN).
  { unfold RMSE, np_mean, np_sum, of_nat, ndiv, scale_inf, Rzero. simpl.
    destruct (Req_dec_T 0 0) as [_|H]; [reflexivity | lra]. }
  split; [exact E1|]. split; [reflexivity|].
  intros [r [k [H _]]]. rewrite E1 in H. discriminate.
Qed.

(** C8, counterexample.  On doubles RMSE is 0 on vectors that differ.
    The vectors [1e-200] and [0.0] have one length, are finite and differ,
    and the square of their difference, 1e-400, underflows to 0: the mean
    is 0 and RMSE is 0.  The same happens on 0.5, 1e-200, 0.5 against
    0.5, 0, 0.5.  On lists of Python floats RMSE need not return either:
    on [2^600] and [0.0] the square overflows and [**] raises
    [OverflowError]. *)
Lemma RMSE_zero_by_underflow :
  length [F64.tiny] = length [F64.zero] /\
  [F64.tiny] <> [F64.zero] /\
  PrimFloat.ltb F64.zero F64.tiny = true /\
  F64.RMSE [F64.tiny] [F64.zero] = Ok F64.zero /\
  F64.RMSE [F64.half; F64.tiny; F64.half] [F64.half; F64.zero; F64.half]
  = Ok F64.zero /\
  F64.RMSE [F64.huge] [F64.zero] = Raise OverflowError.
Proof.
  split; [reflexivity|]. split.
  { intros H.
    apply (f_equal (fun l => match l with
                             | x :: _ => PrimFloat.is_zero x
                             | [] => false
                             end)) in H.
    vm_compute in H. discriminate. }
  split; [vm_compute; reflexivity|].
  split; [vm_compute; reflexivity|].
  split; vm_compute; reflexivity.
Qed.

(** ** NaN through the models and the metrics *)

Lemma ndiv_nan_r x : ndiv x NaN = NaN.
Proof. now destruct x. Qed.

Lemma nadd_nan_r x : nadd x NaN = NaN.
Proof. now destruct x. Qed.

Lemma nsub_nan_r x : nsub x NaN = NaN.
Proof. unfold nsub. apply nadd_nan_r. Qed.

Lemma map_const {A B} (b : B) (l : list A) :
  map (fun _ => b) l = repeat b (length l).
Proof. induction l; simpl; congruence. Qed.

Lemma betaBinom_nan (sf : special_functions) (x : list num) :
  betaBinom sf x NaN NaN = repeat NaN (length x).
Proof.
  unfold betaBinom. rewrite <- map_const.
  apply map_ext. intros v.
  replace (beta sf NaN NaN) with NaN by reflexivity.
  apply ndiv_nan_r.
Qed.

Lemma zipfDist_nan (sf : special_functions) (x : list num) :
  zipfDist sf x NaN = repeat NaN (length x).
Proof.
  unfold zipfDist. rewrite map_map, <- map_const.
  apply map_ext. intros v.
  replace (zetac sf NaN) with NaN by reflexivity.
  apply ndiv_nan_r.
Qed.

Lemma zip_with_nan h (O : list num) :
  (forall o, h o NaN = NaN) ->
  forall k, length O = k -> zip_with h O (repeat NaN k) = repeat NaN k.
Proof.
  intros Hh. unfold zip_with.
  induction O as [|o t IH]; intros k L; subst k; simpl; [reflexivity|].
  rewrite Hh. f_equal. now apply IH.
Qed.

Lemma nsum_repeat_nan k : nsum (repeat NaN (S k)) = NaN.
Proof. reflexivity. Qed.

Lemma cumsum_from_nan k : cumsum_from NaN (repeat NaN k) = repeat NaN k.
Proof. induction k; simpl; congruence. Qed.

Lemma fold_nmax_nan k : fold_left nmax (repeat NaN k) NaN = NaN.
Proof. induction k; simpl; auto. Qed.

(** Against an expected vector that is NaN throughout, the four metrics
    of a non-empty observed vector are NaN. *)
Lemma metrics_nan (O : list num) :
  O <> [] ->
  chiSquare O (repeat NaN (length O)) = Ok NaN /\
  RSquare O (repeat NaN (length O)) = Ok NaN /\
  RMSE O (repeat NaN (length O)) = Ok NaN /\
  KS O (repeat NaN (length O)) = Ok NaN.
Proof.
  intros Hne.
  assert (L : length O = length (repeat NaN (length O)))
    by now rewrite repeat_length.
  destruct (length O) as [|k] eqn:Ek; [destruct O; simpl in *; congruence|].
  rewrite chiSquare_formula, RSquare_closed, RMSE_closed, KS_closed
    by (rewrite Ek; exact L).
  unfold chi_formula, np_mean.
  rewrite !np_sum_nsum.
  rewrite (zip_with_nan chi_term O) by
    (try exact Ek; intros o; unfold chi_term; rewrite nsub_nan_r; reflexivity).
  rewrite (zip_with_nan sq_diff O) by
    (try exact Ek; intros o; unfold sq_diff; rewrite nsub_nan_r; reflexivity).
  rewrite nsum_repeat_nan.
  split; [reflexivity|]. split; [reflexivity|]. split; [reflexivity|].
  replace (np_cumsum (repeat NaN (S k))) with (repeat NaN (S k))
    by (simpl; now rewrite cumsum_from_nan).
  rewrite (zip_with_nan abs_diff (np_cumsum O)).
  - simpl. now rewrite fold_nmax_nan.
  - intros o. unfold abs_diff. now rewrite nsub_nan_r.
  - now rewrite np_cumsum_length.
Qed.

(** ** The uniform density *)

Lemma Rsum_repeat r k : Rsum (repeat r k) = INR k * r.
Proof.
  induction k as [|k IH]; [simpl; lra|].
  rewrite S_INR. simpl repeat. simpl Rsum. rewrite IH. lra.
Qed.

Lemma uniDist_entries {A} (x : list A) (k : nat) :
  k <> O ->
  uniDist x k = Ok (repeat (Fin (1 / INR k)) (length x)) /\ 0 < 1 / INR k.
Proof.
  intros Hk. unfold uniDist. rewrite true_div_ok by exact Hk. simpl. split.
  - reflexivity.
  - apply Rdiv_lt_0_compat; [lra | apply lt_0_INR; lia].
Qed.

Lemma map_repeat_Fin r k : repeat (Fin r) k = map Fin (repeat r k).
Proof. induction k; simpl; congruence. Qed.

Lemma uniform_prob_vector (k : nat) :
  k <> O -> prob_vector (repeat (Fin (1 / INR k)) k).
Proof.
  intros Hk. exists (repeat (1 / INR k) k).
  assert (Hp : 0 < INR k) by (apply lt_0_INR; lia).
  split; [|split].
  - apply map_repeat_Fin.
  - apply Forall_forall. intros r Hr. apply repeat_spec in Hr. subst r.
    left. apply Rdiv_lt_0_compat; lra.
  - rewrite Rsum_repeat. field. lra.
Qed.

(** ** The orchestrator *)

Lemma empirical_shape (samples : list Z) (e : empirical_dist) :
  empirical samples = Ok e ->
  samples <> [] /\ length (xs e) = n e /\ length (p e) = n e /\
  n e <> O /\ p e <> [].
Proof.
  intros He.
  assert (Hne : samples <> []) by (intros ->; discriminate He).
  destruct (empirical_run samples Hne)
    as [lo [hi [counts [_ [_ [Ilo [Ihi [Fr [Lc [_ [_ Ee]]]]]]]]]]].
  rewrite Ee in He. injection He as <-. cbn [xs fr N n p].
  assert (Hlohi : (lo <= hi)%Z).
  { rewrite Forall_forall in Fr. destruct (Fr lo Ilo). destruct (Fr hi Ihi). lia. }
  assert (Hn : length (arange lo (hi + 1)) <> O) by (rewrite arange_length; lia).
  split; [exact Hne|]. split; [reflexivity|].
  split; [rewrite length_map, Lc, arange_length; reflexivity|].
  split; [exact Hn|].
  rewrite arange_length in Hn. rewrite <- Lc in Hn.
  destruct counts; simpl in *; congruence.
Qed.

Lemma empirical_float_shape (samples : list Z) (e : empirical_dist) :
  empirical_float samples = Ok e ->
  samples <> [] /\ length (xs e) = n e /\ length (p e) = n e /\
  n e <> O /\ p e <> [].
Proof.
  intros He.
  destruct (empirical_float_inv samples e He)
    as [Hne [Hx [En [Lf [_ [_ Ep]]]]]].
  assert (Hn : n e <> O).
  { rewrite En. destruct (xs e); [congruence | discriminate]. }
  assert (Lp : length (p e) = n e) by (rewrite Ep, length_map; congruence).
  split; [exact Hne|]. split; [congruence|]. split; [exact Lp|].
  split; [exact Hn|].
  intros Z. rewrite Z in Lp. simpl in Lp. congruence.
Qed.

Lemma empirical_float_prob_vector (samples : list Z) (e : empirical_dist) :
  empirical_float samples = Ok e -> prob_vector (p e).
Proof.
  intros He.
  destruct (empirical_float_inv samples e He)
    as [Hne [_ [_ [_ [_ [Hs Ep]]]]]].
  assert (HN : length samples <> 0%nat) by (destruct samples; simpl; congruence).
  assert (HNpos : 0 < INR (length samples)) by (apply lt_0_INR; lia).
  exists (map (fun x => INR x / INR (length samples)) (fr e)).
  split; [rewrite Ep; now rewrite map_map|]. split.
  - apply Forall_forall. intros r Hr. apply in_map_iff in Hr.
    destruct Hr as [c [<- _]].
    apply Rmult_le_pos; [apply pos_INR | left; now apply Rinv_0_lt_compat].
  - rewrite Rsum_scaled, Hs. field. lra.
Qed.

Lemma basic_stats_ok (iqr : list num -> num) (samples : list Z) :
  samples <> [] ->
  exists stats, basic_stats iqr samples = Ok stats /\ length stats = 5%nat.
Proof.
  intros Hne. unfold basic_stats.
  destruct (np_minZ_spec samples Hne) as [lo [-> _]].
  destruct (np_maxZ_spec samples Hne) as [hi [-> _]].
  simpl. eexists. split; reflexivity.
Qed.

Lemma metric_row_ok (sf : special_functions)
      (metric : list num -> list num -> res num)
      (e : empirical_dist) (a b c : num) (u : list num) (m0 m1 m2 : num) :
  uniDist (map of_Z (xs e)) (n e) = Ok u ->
  metric (p e) u = Ok m0 ->
  metric (p e) (betaBinom sf (map of_Z (xs e)) a b) = Ok m1 ->
  metric (p e) (zipfDist sf (map of_Z (xs e)) c) = Ok m2 ->
  metric_row sf metric e a b c = Ok [m0; m1; m2].
Proof.
  intros Hu H0 H1 H2. unfold metric_row.
  rewrite Hu. simpl. rewrite H0. simpl. rewrite H1. simpl. rewrite H2.
  reflexivity.
Qed.

Lemma betaBinom_length sf x a b : length (betaBinom sf x a b) = length x.
Proof. unfold betaBinom. apply length_map. Qed.

Lemma zipfDist_length sf x c : length (zipfDist sf x c) = length x.
Proof. unfold zipfDist. now rewrite !length_map. Qed.

(** Scoring never raises after a successful empirical distribution, and
    each column of the table holds the four metrics of one model. *)
Lemma score_ok (sf : special_functions) (samples : list Z)
      (e : empirical_dist) (a b c : num) :
  empirical_float samples = Ok e ->
  exists cells u,
    score sf e a b c = Ok cells /\
    length cells = 4%nat /\ Forall (fun row => length row = 3%nat) cells /\
    uniDist (map of_Z (xs e)) (n e) = Ok u /\
    scored_column (p e) u (column 0 cells) /\
    scored_column (p e) (betaBinom sf (map of_Z (xs e)) a b) (column 1 cells) /\
    scored_column (p e) (zipfDist sf (map of_Z (xs e)) c) (column 2 cells).
Proof.
  intros He.
  destruct (empirical_float_shape samples e He) as [_ [Lx [Lp [Hn Hp]]]].
  destruct (uniDist_entries (map of_Z (xs e)) (n e) Hn) as [Hu _].
  set (x := map of_Z (xs e)) in *.
  assert (Lxn : length x = n e) by (unfold x; now rewrite length_map).
  set (u := repeat (Fin (1 / INR (n e))) (length x)) in *.
  destruct (metrics_return (p e) u Hp) as [c0 [r0 [m0 [k0 [C0 [R0 [M0 K0]]]]]]].
  { unfold u. rewrite repeat_length. congruence. }
  destruct (metrics_return (p e) (betaBinom sf x a b) Hp)
    as [c1 [r1 [m1 [k1 [C1 [R1 [M1 K1]]]]]]].
  { rewrite betaBinom_length. congruence. }
  destruct (metrics_return (p e) (zipfDist sf x c) Hp)
    as [c2 [r2 [m2 [k2 [C2 [R2 [M2 K2]]]]]]].
  { rewrite zipfDist_length. congruence. }
  exists [[c0; c1; c2]; [r0; r1; r2]; [m0; m1; m2]; [k0; k1; k2]], u.
  split.
  { unfold score.
    rewrite (metric_row_ok sf chiSquare e a b c u c0 c1 c2) by assumption.
    rewrite (metric_row_ok sf RSquare e a b c u r0 r1 r2) by assumption.
    rewrite (metric_row_ok sf RMSE e a b c u m0 m1 m2) by assumption.
    rewrite (metric_row_ok sf KS e a b c u k0 k1 k2) by assumption.
    reflexivity. }
  split; [reflexivity|]. split; [repeat constructor|].
  split; [exact Hu|].
  split; [exists c0, r0, m0, k0; auto 10|].
  split; [exists c1, r1, m1, k1; auto 10|].
  exists c2, r2, m2, k2; auto 10.
Qed.

Lemma scored_column_nan (O col : list num) :
  O <> [] -> scored_column O (repeat NaN (length O)) col ->
  col = [NaN; NaN; NaN; NaN].
Proof.
  intros Hne [c [r [m [k [-> [Hc [Hr [Hm Hk]]]]]]]].
  destruct (metrics_nan O Hne) as [Nc [Nr [Nm Nk]]].
  congruence.
Qed.

Section Runs.

Variable sf : special_functions.
Variable iqr : list num -> num.
Variable curve_fit_bounded :
  (list num -> num -> num -> list num) -> list num -> list num ->
  res (num * num) -> Prop.
Variable curve_fit_free :
  (list num -> num -> list num) -> list num -> list num ->
  res num -> Prop.

Lemma distributionFitting_intro samples e stats bfit zfit :
  empirical_float samples = Ok e ->
  basic_stats iqr (map pyfloat samples) = Ok stats ->
  curve_fit_bounded (betaBinom sf) (map of_Z (xs e)) (p e) bfit ->
  curve_fit_free (zipfDist sf) (map of_Z (xs e)) (p e) zfit ->
  distributionFitting sf iqr curve_fit_bounded curve_fit_free samples
    (finish sf stats e bfit zfit).
Proof.
  intros He Hs Hb Hz. unfold distributionFitting. rewrite He, Hs.
  exists bfit, zfit. auto.
Qed.

Lemma float_stats_ok samples :
  samples <> [] ->
  exists stats,
    basic_stats iqr (map pyfloat samples) = Ok stats /\ length stats = 5%nat.
Proof.
  intros Hne. apply basic_stats_ok.
  destruct samples; [congruence | discriminate].
Qed.

Lemma distributionFitting_inv samples e out :
  empirical_float samples = Ok e ->
  distributionFitting sf iqr curve_fit_bounded curve_fit_free samples out ->
  exists stats bfit zfit,
    basic_stats iqr (map pyfloat samples) = Ok stats /\ length stats = 5%nat /\
    curve_fit_bounded (betaBinom sf) (map of_Z (xs e)) (p e) bfit /\
    curve_fit_free (zipfDist sf) (map of_Z (xs e)) (p e) zfit /\
    out = finish sf stats e bfit zfit.
Proof.
  intros He H. unfold distributionFitting in H. rewrite He in H.
  destruct (empirical_float_shape samples e He) as [Hne _].
  destruct (float_stats_ok samples Hne) as [stats [Hs L]].
  rewrite Hs in H. destruct H as [bfit [zfit [Hb [Hz ->]]]].
  exists stats, bfit, zfit. auto.
Qed.

Lemma finish_ok samples e stats bfit zfit :
  empirical_float samples = Ok e -> length stats = 5%nat ->
  exists cells u,
    finish sf stats e bfit zfit
    = Ok (mkOutput stats cells
            [fst (b1_of bfit); snd (b1_of bfit); z1_of zfit]) /\
    length cells = 4%nat /\ Forall (fun row => length row = 3%nat) cells /\
    uniDist (map of_Z (xs e)) (n e) = Ok u /\
    scored_column (p e) u (column 0 cells) /\
    scored_column (p e)
      (betaBinom sf (map of_Z (xs e)) (fst (b1_of bfit)) (snd (b1_of bfit)))
      (column 1 cells) /\
    scored_column (p e) (zipfDist sf (map of_Z (xs e)) (z1_of zfit))
      (column 2 cells).
Proof.
  intros He L.
  destruct (score_ok sf samples e (fst (b1_of bfit)) (snd (b1_of bfit))
              (z1_of zfit) He)
    as [cells [u [Hsc [L4 [L3 [Hu [S0 [S1 S2]]]]]]]].
  exists cells, u. unfold finish. cbv zeta. rewrite Hsc.
  repeat (split; [assumption || reflexivity|]). assumption.
Qed.

(** What the two [try]/[except] blocks and the scoring make of the
    outcomes of the two optimizer calls. *)
Lemma finish_by_cases samples e stats bfit zfit :
  empirical_float samples = Ok e -> length stats = 5%nat ->
  exists cells u a b c,
    finish sf stats e bfit zfit = Ok (mkOutput stats cells [a; b; c]) /\
    complete_shape (mkOutput stats cells [a; b; c]) /\
    uniDist (map of_Z (xs e)) (n e) = Ok u /\
    scored_column (p e) u (column 0 cells) /\
    match bfit with
    | Raise _ =>
        a = NaN /\ b = NaN /\ column 1 cells = [NaN; NaN; NaN; NaN]
    | Ok (a', b') =>
        a = a' /\ b = b' /\
        scored_column (p e) (betaBinom sf (map of_Z (xs e)) a' b')
          (column 1 cells)
    end /\
    match zfit with
    | Raise _ => c = NaN /\ column 2 cells = [NaN; NaN; NaN; NaN]
    | Ok c' =>
        c = c' /\
        scored_column (p e) (zipfDist sf (map of_Z (xs e)) c')
          (column 2 cells)
    end.
Proof.
  intros He L5.
  destruct (empirical_float_shape samples e He) as [Hne [Lx [Lp [Hn Hp]]]].
  assert (Lxp : length (map of_Z (xs e)) = length (p e))
    by (rewrite length_map; congruence).
  destruct (finish_ok samples e stats bfit zfit He L5)
    as [cells [u [Hf [L4 [L3 [Hu [S0 [S1 S2]]]]]]]].
  exists cells, u, (fst (b1_of bfit)), (snd (b1_of bfit)), (z1_of zfit).
  split; [exact Hf|].
  split; [unfold complete_shape; simpl; auto|].
  split; [exact Hu|]. split; [exact S0|]. split.
  - destruct bfit as [[a' b']|ex]; simpl in *; [auto|].
    split; [reflexivity|]. split; [reflexivity|].
    rewrite betaBinom_nan, Lxp in S1.
    now apply (scored_column_nan (p e)).
  - destruct zfit as [c'|ex]; simpl in *; [auto|].
    split; [reflexivity|].
    rewrite zipfDist_nan, Lxp in S2.
    now apply (scored_column_nan (p e)).
Qed.

(** C4.  On samples whose empirical distribution [e] was built, the runs
    of the orchestrator are exactly these.  Whatever the two optimizer
    calls produce (a result or an exception, independently of each
    other), there is a run with these outcomes, and it returns.  Every
    run comes from such a pair of outcomes and returns a result with the
    complete field set: the statistics, a table of four rows of three
    entries, three parameters.  In it a model whose optimizer call raised
    has all its parameters NaN and its four metrics NaN; a model whose
    call returned has the returned parameters and the four metrics of its
    density at these parameters; the uniform model is scored in every
    case.  No run raises. *)
Theorem fit_failure_degrades_gracefully
        (samples : list Z) (e : empirical_dist) :
  empirical_float samples = Ok e ->
  (forall bfit zfit,
     curve_fit_bounded (betaBinom sf) (map of_Z (xs e)) (p e) bfit ->
     curve_fit_free (zipfDist sf) (map of_Z (xs e)) (p e) zfit ->
     exists stats cells,
       distributionFitting sf iqr curve_fit_bounded curve_fit_free samples
         (Ok (mkOutput stats cells
                [fst (b1_of bfit); snd (b1_of bfit); z1_of zfit]))) /\
  (forall out,
     distributionFitting sf iqr curve_fit_bounded curve_fit_free samples out ->
     exists bfit zfit stats cells u a b c,
       curve_fit_bounded (betaBinom sf) (map of_Z (xs e)) (p e) bfit /\
       curve_fit_free (zipfDist sf) (map of_Z (xs e)) (p e) zfit /\
       out = Ok (mkOutput stats cells [a; b; c]) /\
       complete_shape (mkOutput stats cells [a; b; c]) /\
       basic_stats iqr (map pyfloat samples) = Ok stats /\
       uniDist (map of_Z (xs e)) (n e) = Ok u /\
       scored_column (p e) u (column 0 cells) /\
       match bfit with
       | Raise _ =>
           a = NaN /\ b = NaN /\ column 1 cells = [NaN; NaN; NaN; NaN]
       | Ok (a', b') =>
           a = a' /\ b = b' /\
           scored_column (p e) (betaBinom sf (map of_Z (xs e)) a' b')
             (column 1 cells)
       end /\
       match zfit with
       | Raise _ => c = NaN /\ column 2 cells = [NaN; NaN; NaN; NaN]
       | Ok c' =>
           c = c' /\
           scored_column (p e) (zipfDist sf (map of_Z (xs e)) c')
             (column 2 cells)
       end).
Proof.
  intros He.
  destruct (empirical_float_shape samples e He) as [Hne _].
  split.
  - intros bfit zfit Hb Hz.
    destruct (float_stats_ok samples Hne) as [stats [Hs L5]].
    destruct (finish_ok samples e stats bfit zfit He L5)
      as [cells [u [Hf _]]].
    exists stats, cells. rewrite <- Hf. now apply distributionFitting_intro.
  - intros out Hout.
    destruct (distributionFitting_inv samples e out He Hout)
      as [stats [bfit [zfit [Hs [L5 [Hb [Hz ->]]]]]]].
    destruct (finish_by_cases samples e stats bfit zfit He L5)
      as [cells [u [a [b [c [Hf [Hshape [Hu [S0 [S1 S2]]]]]]]]]].
    exists bfit, zfit, stats, cells, u, a, b, c.
    split; [exact Hb|]. split; [exact Hz|]. split; [exact Hf|].
    split; [exact Hshape|]. split; [exact Hs|]. split; [exact Hu|].
    split; [exact S0|]. split; [exact S1 | exact S2].
Qed.

(** C6.  On the empty sample set building the empirical distribution
    raises [ValueError] (from the minimum of an empty list), and that
    exception is the only outcome of a run: the computation aborts before
    any statistic is derived and nothing is returned. *)
Theorem empty_samples_abort (out : res output) :
  empirical [] = Raise ValueError /\
  empirical_float [] = Raise ValueError /\
  (distributionFitting sf iqr curve_fit_bounded curve_fit_free [] out
   <-> out = Raise ValueError) /\
  (distributionFitting sf iqr curve_fit_bounded curve_fit_free [] out ->
   forall o, out <> Ok o).
Proof.
  assert (H : distributionFitting sf iqr curve_fit_bounded curve_fit_free [] out
              <-> out = Raise ValueError).
  { unfold distributionFitting. simpl. tauto. }
  split; [reflexivity|]. split; [reflexivity|]. split; [exact H|].
  intros Hrun o. apply H in Hrun. rewrite Hrun. discriminate.
Qed.

(** C9.  With optimizer calls whose outcome is determined by their
    arguments, two runs on the same samples end in the same outcome: the
    same statistics, metrics and parameters, or the same exception. *)
Theorem distributionFitting_deterministic :
  (forall f x y o1 o2,
     curve_fit_bounded f x y o1 -> curve_fit_bounded f x y o2 -> o1 = o2) ->
  (forall f x y o1 o2,
     curve_fit_free f x y o1 -> curve_fit_free f x y o2 -> o1 = o2) ->
  forall samples out1 out2,
    distributionFitting sf iqr curve_fit_bounded curve_fit_free samples out1 ->
    distributionFitting sf iqr curve_fit_bounded curve_fit_free samples out2 ->
    out1 = out2.
Proof.
  intros Db Dz samples out1 out2 H1 H2.
  unfold distributionFitting in H1, H2.
  destruct (empirical_float samples) as [e|ex]; [|congruence].
  destruct (basic_stats iqr (map pyfloat samples)) as [stats|ex]; [|congruence].
  destruct H1 as [b1 [z1 [Hb1 [Hz1 ->]]]].
  destruct H2 as [b2 [z2 [Hb2 [Hz2 ->]]]].
  rewrite (Db _ _ _ _ _ Hb1 Hb2), (Dz _ _ _ _ _ Hz1 Hz2).
  reflexivity.
Qed.

End Runs.

(** ** Runs on concrete samples *)

Lemma empirical_float_112 : empirical_float [1; 1; 2]%Z = Ok e112.
Proof. reflexivity. Qed.

(** At the pole of zeta the Zipfian density divides by the infinity that
    [zetac] returns there: every entry is 0. *)
Lemma zipfDist_at_pole :
  zipfDist ref_sf (map of_Z [1; 2]%Z) (Fin 1) = [Fin 0; Fin 0].
Proof.
  unfold zipfDist, zetac, ufunc1. cbn [cephes_zetac ref_sf float_pow map].
  assert (Ez : ref_zetac (Fin 1) = PInf).
  { unfold ref_zetac. destruct (Req_dec_T 1 2) as [H|_]; [lra|].
    destruct (Req_dec_T 1 1) as [_|H]; [reflexivity | lra]. }
  rewrite Ez. unfold ref_pow, of_Z, nmul.
  destruct (Rlt_dec 0 (IZR 1)) as [_|H]; [|exfalso; apply H; lra].
  destruct (Rlt_dec 0 (IZR 2)) as [_|H]; [|exfalso; apply H; lra].
  reflexivity.
Qed.

(** A run on the samples 1, 1, 2 where the beta-binomial fit raises and
    the Zipfian fit returns c = 1: the parameters are NaN, NaN, 1, the
    beta-binomial column of the table is NaN throughout, and the Zipfian
    column holds the metrics of the density at c = 1. *)
Lemma fit_failure_degrades_gracefully_witness :
  empirical_float [1; 1; 2]%Z = Ok e112 /\
  exists stats cells,
    distributionFitting ref_sf iqr_undefined failing_fit initial_guess1
      [1; 1; 2]%Z (Ok (mkOutput stats cells [NaN; NaN; Fin 1])) /\
    column 1 cells = [NaN; NaN; NaN; NaN] /\
    scored_column (p e112) [Fin 0; Fin 0] (column 2 cells).
Proof.
  split; [exact empirical_float_112|].
  pose proof (fit_failure_degrades_gracefully ref_sf iqr_undefined
                failing_fit initial_guess1 [1; 1; 2]%Z e112
                empirical_float_112) as [Hsome Hall].
  destruct (Hsome (Raise RuntimeError) (Ok (Fin 1)) eq_refl eq_refl)
    as [stats [cells Hrun]].
  exists stats, cells. split; [exact Hrun|].
  destruct (Hall _ Hrun)
    as [bfit [zfit [stats' [cells' [u [a [b [c
         [Hb [Hz [Eout [_ [_ [_ [_ [Cb Cz]]]]]]]]]]]]]]]].
  unfold failing_fit in Hb. unfold initial_guess1 in Hz. subst bfit zfit.
  injection Eout as _ Ecells _ _ _. subst cells'.
  destruct Cb as [_ [_ Hcol]]. destruct Cz as [_ Hz].
  split; [exact Hcol|].
  rewrite <- zipfDist_at_pole. exact Hz.
Defined.

Lemma initial_guess2_functional f x y (o1 o2 : res (num * num)) :
  initial_guess2 f x y o1 -> initial_guess2 f x y o2 -> o1 = o2.
Proof. unfold initial_guess2. congruence. Qed.

Lemma initial_guess1_functional f x y (o1 o2 : res num) :
  initial_guess1 f x y o1 -> initial_guess1 f x y o2 -> o1 = o2.
Proof. unfold initial_guess1. congruence. Qed.

(** Two runs on the samples 1, 1, 2 with the optimizer that returns its
    starting point. *)
Lemma distributionFitting_deterministic_witness :
  (forall f x y o1 o2,
     initial_guess2 f x y o1 -> initial_guess2 f x y o2 -> o1 = o2) /\
  (forall f x y o1 o2,
     initial_guess1 f x y o1 -> initial_guess1 f x y o2 -> o1 = o2) /\
  exists out1 out2,
    distributionFitting ref_sf iqr_undefined initial_guess2 initial_guess1
      [1; 1; 2]%Z out1 /\
    distributionFitting ref_sf iqr_undefined initial_guess2 initial_guess1
      [1; 1; 2]%Z out2 /\
    out1 = out2.
Proof.
  split; [exact initial_guess2_functional|].
  split; [exact initial_guess1_functional|].
  destruct (float_stats_ok iqr_undefined [1; 1; 2]%Z) as [stats [Hs _]];
    [discriminate|].
  assert (Hrun : distributionFitting ref_sf iqr_undefined
                   initial_guess2 initial_guess1 [1; 1; 2]%Z
                   (finish ref_sf stats e112 (Ok (Fin 1, Fin 1)) (Ok (Fin 1)))).
  { apply distributionFitting_intro;
      [exact empirical_float_112 | exact Hs | reflexivity | reflexivity]. }
  exists (finish ref_sf stats e112 (Ok (Fin 1, Fin 1)) (Ok (Fin 1))),
         (finish ref_sf stats e112 (Ok (Fin 1, Fin 1)) (Ok (Fin 1))).
  split; [exact Hrun|]. split; [exact Hrun|].
  exact (distributionFitting_deterministic ref_sf iqr_undefined
           initial_guess2 initial_guess1
           initial_guess2_functional initial_guess1_functional
           [1; 1; 2]%Z _ _ Hrun Hrun).
Defined.

(** ** The three expected vectors *)

(** C7 as amended.  For every non-empty sample set in the exact range the
    empirical distribution is built, and whenever it has been built the
    three expected vectors passed to the goodness-of-fit stage have
    length n, for every value of the parameters.  The discrete-uniform
    one is a probability vector: every entry is 1/n, at least 0, and the
    entries sum to 1 (exact real arithmetic).  The beta-binomial and the
    Zipfian vector are NaN throughout when their fit failed; otherwise
    they are what the two formulas give at the fitted parameters: nothing
    normalises them, and they need not be probability vectors. *)
Theorem fitted_vectors_shape (sf : special_functions) (samples : list Z) :
  (samples <> [] -> exact_range samples ->
   exists e, empirical_float samples = Ok e) /\
  (forall e, empirical_float samples = Ok e ->
   exists u,
     uniDist (map of_Z (xs e)) (n e) = Ok u /\
     length u = n e /\
     (forall i, (i < n e)%nat -> nth i u NaN = Fin (1 / INR (n e))) /\
     prob_vector u /\
     (forall a b c,
        length (betaBinom sf (map of_Z (xs e)) a b) = n e /\
        length (zipfDist sf (map of_Z (xs e)) c) = n e) /\
     (forall ex,
        betaBinom sf (map of_Z (xs e))
          (fst (b1_of (Raise ex))) (snd (b1_of (Raise ex)))
        = repeat NaN (n e) /\
        zipfDist sf (map of_Z (xs e)) (z1_of (Raise ex)) = repeat NaN (n e))).
Proof.
  split.
  { intros Hne Hx.
    destruct (empirical_float_run samples Hne Hx)
      as [lo [hi [counts [_ [_ [_ [_ [_ [_ [_ [_ Ee]]]]]]]]]]].
    eexists. exact Ee. }
  intros e He.
  destruct (empirical_float_shape samples e He) as [_ [Lx [_ [Hn _]]]].
  destruct (uniDist_entries (map of_Z (xs e)) (n e) Hn) as [Hu _].
  rewrite length_map, Lx in Hu.
  exists (repeat (Fin (1 / INR (n e))) (n e)).
  split; [exact Hu|]. split; [apply repeat_length|]. split.
  { intros i Hi. apply nth_repeat_lt. exact Hi. }
  split; [now apply uniform_prob_vector|]. split.
  - intros a b c. rewrite betaBinom_length, zipfDist_length, length_map. auto.
  - intros ex. cbn [b1_of z1_of fst snd].
    rewrite betaBinom_nan, zipfDist_nan, length_map, Lx. auto.
Qed.

(** The theorem on the samples 1, 1, 2. *)
Lemma fitted_vectors_shape_witness :
  empirical_float [1; 1; 2]%Z = Ok e112 /\
  exists u,
    uniDist (map of_Z (xs e112)) (n e112) = Ok u /\
    length u = n e112 /\
    (forall i, (i < n e112)%nat -> nth i u NaN = Fin (1 / INR (n e112))) /\
    prob_vector u /\
    (forall a b c,
       length (betaBinom ref_sf (map of_Z (xs e112)) a b) = n e112 /\
       length (zipfDist ref_sf (map of_Z (xs e112)) c) = n e112) /\
    (forall ex,
       betaBinom ref_sf (map of_Z (xs e112))
         (fst (b1_of (Raise ex))) (snd (b1_of (Raise ex)))
       = repeat NaN (n e112) /\
       zipfDist ref_sf (map of_Z (xs e112)) (z1_of (Raise ex))
       = repeat NaN (n e112)).
Proof.
  split; [exact empirical_float_112|].
  exact (proj2 (fitted_vectors_shape ref_sf [1; 1; 2]%Z) e112
           empirical_float_112).
Defined.

Lemma prob_vector_single (z : num) : prob_vector [z] -> z = Fin 1.
Proof.
  intros [rs [E [_ S]]].
  destruct rs as [|r [|r' t]]; simpl in E; try discriminate.
  injection E as ->. simpl in S. f_equal. lra.
Qed.

(** A quotient whose numerator has the factor 0 is 0 or NaN, never 1. *)
Lemma zero_factor_not_one (x y : num) : ndiv (nmul (Fin 0) x) y <> Fin 1.
Proof.
  assert (Z0 : forall b, Rzero (0 * b) = true).
  { intros b. unfold Rzero. destruct (Req_dec_T (0 * b) 0) as [_|H];
      [reflexivity | exfalso; apply H; ring]. }
  assert (Z1 : Rzero 0 = true).
  { unfold Rzero. destruct (Req_dec_T 0 0) as [_|H]; [reflexivity | lra]. }
  destruct x as [b| | |]; cbn [nmul]; unfold scale_inf; rewrite ?Z1;
    try (destruct y; discriminate).
  destruct y as [c| | |]; cbn [ndiv]; try discriminate.
  - destruct (Rzero c).
    + unfold scale_inf. rewrite Z0. discriminate.
    + intros H. injection H as H. unfold Rdiv in H.
      rewrite !Rmult_0_l in H. lra.
  - intros H. injection H as H. lra.
  - intros H. injection H as H. lra.
Qed.

(** On a support of one point whose binomial coefficient is 0 the
    beta-binomial vector is not a probability vector, whatever the
    parameters. *)
Lemma betaBinom_zero_coefficient (sf : special_functions) (v a b : num) :
  binom sf (of_nat 1) v = Fin 0 -> ~ prob_vector (betaBinom sf [v] a b).
Proof.
  intros Hb H. apply prob_vector_single in H. revert H.
  cbn [length]. rewrite Hb. apply zero_factor_not_one.
Qed.

(** On the support that holds the point 0 alone the Zipfian vector is not
    a probability vector, whatever the parameter. *)
Lemma zipfDist_zero_support (sf : special_functions) (c : num) :
  pow_at_zero sf -> zetac sf (Fin 0) <> Fin 1 ->
  ~ prob_vector (zipfDist sf [Fin 0] c).
Proof.
  intros Hpow Hz H. apply prob_vector_single in H. revert H.
  cbn [map]. set (z := zetac sf c).
  destruct (Hpow (nmul (Fin (-1)) c)) as [E|[E|[E|[E Ey]]]]; rewrite E.
  - destruct z as [d| | |]; cbn [ndiv]; try discriminate.
    + destruct (Rzero d).
      * unfold scale_inf, Rzero.
        destruct (Req_dec_T 0 0) as [_|H]; [discriminate | lra].
      * intros H. injection H as H. unfold Rdiv in H.
        rewrite Rmult_0_l in H. lra.
    + intros H. injection H as H. lra.
    + intros H. injection H as H. lra.
  - destruct z as [d| | |]; cbn [ndiv]; try discriminate.
    destruct (Rneg d); discriminate.
  - destruct z; discriminate.
  - assert (Ec : c = Fin 0).
    { destruct c as [r| | |]; cbn [nmul] in Ey; unfold scale_inf in Ey;
        try discriminate;
        try (destruct (Rzero (-1)); [|simpl in Ey; destruct (Rneg (-1))];
             discriminate).
      injection Ey as Ey. f_equal. lra. }
    subst c. fold z in Hz.
    destruct z as [d| | |]; cbn [ndiv]; try discriminate.
    + unfold Rzero. destruct (Req_dec_T d 0) as [Hd|Hd].
      * unfold scale_inf, Rzero.
        destruct (Req_dec_T 1 0) as [H|_]; [lra|]. simpl.
        destruct (Rneg 1); discriminate.
      * intros H. injection H as H. apply Hz. f_equal.
        apply (Rmult_eq_compat_r d) in H. unfold Rdiv in H.
        rewrite Rmult_assoc, Rinv_l, Rmult_1_r, Rmult_1_l in H by exact Hd.
        lra.
    + intros H. injection H as H. lra.
    + intros H. injection H as H. lra.
Qed.

Lemma ref_pow_at_zero : pow_at_zero ref_sf.
Proof.
  intros y. cbn [float_pow ref_sf]. unfold ref_pow.
  destruct (Req_dec_T 0 0) as [_|H]; [|lra].
  destruct (Rlt_dec 0 0) as [H|_]; [lra|].
  destruct y as [r| | |]; auto.
  destruct (Req_dec_T r 0) as [->|_]; [auto|].
  destruct (Rlt_dec 0 r); auto.
Qed.

Lemma ref_zetac_zero : zetac ref_sf (Fin 0) = Fin (- (3 / 2)).
Proof.
  unfold zetac, ufunc1. cbn [cephes_zetac ref_sf]. unfold ref_zetac.
  destruct (Req_dec_T 0 2) as [H|_]; [lra|].
  destruct (Req_dec_T 0 1) as [H|_]; [lra|].
  destruct (Req_dec_T 0 0) as [_|H]; [reflexivity | lra].
Qed.

(** C7, counterexample.  On the samples 5, 5, 5, 5 the support is the one
    point 5 and n = 1: the beta-binomial vector has the one entry
    C(1,5) B(a+5, b-4) / B(a,b), and C(1,5) = 0, so for every a and b,
    fitted or NaN, the entry is 0 or NaN and the vector does not sum to 1.
    On the samples 0, 0 the support is the one point 0: the Zipfian vector
    has the one entry 0^(-c) / zetac(c), which is infinite or NaN for
    c > 0, 0 or NaN for c < 0 and 1/zetac(0) = -2/3 at c = 0, so it is not
    a probability vector for any c.  Whatever the optimizer returns on
    these two sample sets, the vector passed to the metrics is not a
    probability vector. *)
Lemma fitted_vector_not_probability :
  (exists e,
     empirical_float [5; 5; 5; 5]%Z = Ok e /\ xs e = [5]%Z /\ n e = 1%nat /\
     binom ref_sf (of_nat (n e)) (of_Z 5) = Fin 0 /\
     (forall a b, ~ prob_vector (betaBinom ref_sf (map of_Z (xs e)) a b)) /\
     (forall sf a b,
        binom sf (of_nat (n e)) (of_Z 5) = Fin 0 ->
        ~ prob_vector (betaBinom sf (map of_Z (xs e)) a b))) /\
  (exists e,
     empirical_float [0; 0]%Z = Ok e /\ xs e = [0]%Z /\ n e = 1%nat /\
     pow_at_zero ref_sf /\ zetac ref_sf (Fin 0) = Fin (- (3 / 2)) /\
     (forall c, ~ prob_vector (zipfDist ref_sf (map of_Z (xs e)) c)) /\
     (forall sf c,
        pow_at_zero sf -> zetac sf (Fin 0) <> Fin 1 ->
        ~ prob_vector (zipfDist sf (map of_Z (xs e)) c))).
Proof.
  assert (B : binom ref_sf (of_nat 1) (of_Z 5) = Fin 0).
  { change 5%Z with (Z.of_nat 5). rewrite of_Z_nat, ref_binom_nat.
    reflexivity. }
  assert (Z0 : zetac ref_sf (Fin 0) <> Fin 1).
  { rewrite ref_zetac_zero. intros H. injection H as H. lra. }
  split.
  - exists (mkEmpirical [5]%Z [4]%nat 4 1 [Fin (INR 4 / INR 4)]).
    split; [reflexivity|]. cbn [xs n map].
    split; [reflexivity|]. split; [reflexivity|]. split; [exact B|].
    split.
    + intros a b. now apply betaBinom_zero_coefficient.
    + intros sf a b Hb. now apply betaBinom_zero_coefficient.
  - exists (mkEmpirical [0]%Z [2]%nat 2 1 [Fin (INR 2 / INR 2)]).
    split; [reflexivity|]. cbn [xs n map].
    split; [reflexivity|]. split; [reflexivity|].
    split; [exact ref_pow_at_zero|]. split; [exact ref_zetac_zero|].
    split.
    + intros c. apply zipfDist_zero_support; [exact ref_pow_at_zero | exact Z0].
    + intros sf c Hp Hz. now apply zipfDist_zero_support.
Qed.

(* ================================================================== *)
(** * Further properties of the code *)

(** ** The support and the counting loop (source lines 102-110)

    [empirical] is the computation on integers and [empirical_float] the
    one on doubles; by [empirical_float_exact] they return the same on
    samples in the exact range. *)

Lemma index_absent v : forall l, ~ In v l -> index v l = Raise ValueError.
Proof.
  intros l. induction l as [|y t IH]; intros H; simpl; [reflexivity|].
  destruct (Z.eqb_spec y v) as [E|E].
  - exfalso. apply H. now left.
  - rewrite IH; [reflexivity|]. intros Hin. apply H. now right.
Qed.

Lemma index_found v : forall l, In v l ->
  exists k, index v l = Ok k /\ getitem l k = Ok v /\
            forall j, (j < k)%nat -> getitem l j <> Ok v.
Proof.
  intros l. induction l as [|y t IH]; intros H; [destruct H|]. simpl.
  destruct (Z.eqb_spec y v) as [E|E].
  - subst y. exists 0%nat. split; [reflexivity|]. split; [reflexivity|].
    intros j Hj. lia.
  - destruct H as [H|H]; [congruence|].
    destruct (IH H) as [k [Hk [Hg Hfirst]]].
    exists (S k). rewrite Hk. split; [reflexivity|]. split; [exact Hg|].
    intros [|j] Hj.
    + unfold getitem. simpl. congruence.
    + apply Hfirst. lia.
Qed.

(** [xs.index(v)] returns the first position that holds [v], and reading
    the list back at that position gives [v]; it raises [ValueError]
    exactly when [v] is not in the list. *)
Theorem index_first_position (l : list Z) (v : Z) :
  (In v l ->
   exists k, index v l = Ok k /\ getitem l k = Ok v /\
             forall j, (j < k)%nat -> getitem l j <> Ok v) /\
  (~ In v l -> index v l = Raise ValueError) /\
  (index v l = Raise ValueError -> ~ In v l).
Proof.
  split; [apply index_found|]. split; [apply index_absent|].
  intros H Hin. destruct (index_found v l Hin) as [k [Hk _]]. congruence.
Qed.

Lemma arange_NoDup lo hi : NoDup (arange lo hi).
Proof.
  unfold arange. apply Finite.Injective_map_NoDup.
  - intros a b H. lia.
  - apply seq_NoDup.
Qed.

(** The frequency vector of a non-empty sample set in the exact range
    (every sample from -2^52 up to, not including, 2^52): one entry per
    support point, the entry of min+i is the number of samples equal to
    min+i, the entries add up to the number of samples, and the first and
    the last entry (the minimum and the maximum) are at least 1.  The
    support has no repeated point. *)
Theorem frequency_vector_counts (samples : list Z) :
  samples <> [] -> exact_range samples ->
  exists e lo hi,
    empirical_float samples = Ok e /\
    np_minZ samples = Ok lo /\ np_maxZ samples = Ok hi /\
    NoDup (xs e) /\
    length (fr e) = n e /\
    (forall i, (i < n e)%nat ->
       nth i (fr e) 0%nat = count_occ Z.eq_dec samples (lo + Z.of_nat i)%Z) /\
    list_sum (fr e) = N e /\ N e = length samples /\
    (1 <= nth 0 (fr e) 0)%nat /\
    (1 <= nth (n e - 1) (fr e) 0)%nat.
Proof.
  intros Hne Hx.
  destruct (empirical_float_run samples Hne Hx)
    as [lo [hi [counts [Elo [Ehi [Ilo [Ihi [Fr [Lc [Hn [Hs Ee]]]]]]]]]]].
  assert (Hlohi : (lo <= hi)%Z).
  { rewrite Forall_forall in Fr. destruct (Fr lo Ilo). destruct (Fr hi Ihi). lia. }
  eexists. exists lo, hi. split; [exact Ee|]. cbn [xs fr N n p].
  split; [exact Elo|]. split; [exact Ehi|].
  split; [apply arange_NoDup|].
  rewrite arange_length.
  split; [exact Lc|]. split; [intros i Hi; apply Hn; lia|].
  split; [exact Hs|]. split; [reflexivity|]. split.
  - rewrite Hn by lia. simpl Z.of_nat. rewrite Z.add_0_r.
    apply (count_occ_In Z.eq_dec) in Ilo. lia.
  - rewrite Hn by lia.
    replace (lo + Z.of_nat (Z.to_nat (hi + 1 - lo) - 1))%Z with hi by lia.
    apply (count_occ_In Z.eq_dec) in Ihi. lia.
Qed.

Lemma exact_range_3114 : exact_range [3; 1; 1; 4]%Z.
Proof. unfold exact_range, two52. repeat constructor; lia. Qed.

Lemma frequency_vector_counts_witness :
  [3; 1; 1; 4]%Z <> [] /\ exact_range [3; 1; 1; 4]%Z /\
  exists e lo hi,
    empirical_float [3; 1; 1; 4]%Z = Ok e /\
    np_minZ [3; 1; 1; 4]%Z = Ok lo /\ np_maxZ [3; 1; 1; 4]%Z = Ok hi /\
    NoDup (xs e) /\
    length (fr e) = n e /\
    (forall i, (i < n e)%nat ->
       nth i (fr e) 0%nat
       = count_occ Z.eq_dec [3; 1; 1; 4]%Z (lo + Z.of_nat i)%Z) /\
    list_sum (fr e) = N e /\ N e = length [3; 1; 1; 4]%Z /\
    (1 <= nth 0 (fr e) 0)%nat /\
    (1 <= nth (n e - 1) (fr e) 0)%nat.
Proof.
  split; [discriminate|]. split; [exact exact_range_3114|].
  apply (frequency_vector_counts [3; 1; 1; 4]%Z);
    [discriminate | exact exact_range_3114].
Defined.

Lemma bounds_unique (l : list Z) lo hi lo' hi' :
  In lo l -> In hi l -> Forall (fun r => (lo <= r <= hi)%Z) l ->
  In lo' l -> In hi' l -> Forall (fun r => (lo' <= r <= hi')%Z) l ->
  lo = lo' /\ hi = hi'.
Proof.
  intros Il Ih F Il' Ih' F'. rewrite Forall_forall in F, F'.
  pose proof (F lo' Il'). pose proof (F hi' Ih').
  pose proof (F' lo Il). pose proof (F' hi Ih). lia.
Qed.

(** The empirical distribution does not depend on the order of the
    samples: two sample lists that are permutations of each other give
    the same support, counts and probabilities (or both raise). *)
Theorem empirical_order_independent (s1 s2 : list Z) :
  Permutation s1 s2 -> empirical s1 = empirical s2.
Proof.
  intros HP.
  destruct s1 as [|a t].
  { apply Permutation_nil in HP. now subst s2. }
  assert (H1 : a :: t <> []) by discriminate.
  assert (H2 : s2 <> []).
  { intros ->. apply Permutation_sym, Permutation_nil in HP. discriminate. }
  destruct (empirical_run (a :: t) H1)
    as [lo [hi [c1 [_ [_ [Il [Ih [F [L1 [N1 [_ E1]]]]]]]]]]].
  destruct (empirical_run s2 H2)
    as [lo' [hi' [c2 [_ [_ [Il' [Ih' [F' [L2 [N2 [_ E2]]]]]]]]]]].
  assert (B : lo = lo' /\ hi = hi').
  { apply (bounds_unique s2); try assumption.
    - now apply (Permutation_in _ HP).
    - now apply (Permutation_in _ HP).
    - rewrite Forall_forall in *. intros r Hr. apply F.
      now apply (Permutation_in _ (Permutation_sym HP)). }
  destruct B as [<- <-].
  assert (C : c1 = c2).
  { apply (nth_ext _ _ 0%nat 0%nat); [congruence|].
    intros i Hi. rewrite N1, N2 by congruence.
    now apply Permutation_count_occ. }
  rewrite E1, E2, C, (Permutation_length HP). reflexivity.
Qed.

Lemma empirical_order_independent_witness :
  Permutation [1; 2; 2]%Z [2; 1; 2]%Z /\
  empirical [1; 2; 2]%Z = empirical [2; 1; 2]%Z.
Proof.
  assert (HP : Permutation [1; 2; 2]%Z [2; 1; 2]%Z) by apply perm_swap.
  split; [exact HP|].
  exact (empirical_order_independent [1; 2; 2]%Z [2; 1; 2]%Z HP).
Defined.

Lemma count_occ_shift k l x :
  count_occ Z.eq_dec (map (Z.add k) l) (k + x)%Z = count_occ Z.eq_dec l x.
Proof.
  induction l as [|y t IH]; simpl; [reflexivity|].
  destruct (Z.eq_dec (k + y) (k + x)), (Z.eq_dec y x); try lia; now rewrite IH.
Qed.

Lemma arange_shift k lo hi :
  arange (k + lo) (k + hi) = map (Z.add k) (arange lo hi).
Proof.
  unfold arange. rewrite map_map.
  replace (k + hi - (k + lo))%Z with (hi - lo)%Z by lia.
  apply map_ext. intros i. lia.
Qed.

(** Adding a constant to every sample moves the support by that constant
    and changes nothing else, as long as the samples are in the exact
    range (from -2^52 up to, not including, 2^52) before and after: the
    counts, the probabilities, N and n are the same. *)
Theorem empirical_shift (k : Z) (samples : list Z) :
  samples <> [] ->
  exact_range samples -> exact_range (map (Z.add k) samples) ->
  exists e,
    empirical_float samples = Ok e /\
    empirical_float (map (Z.add k) samples)
    = Ok (mkEmpirical (map (Z.add k) (xs e)) (fr e) (N e) (n e) (p e)).
Proof.
  intros Hne Hx Hx'.
  assert (Hne' : map (Z.add k) samples <> []) by (destruct samples; [congruence | discriminate]).
  destruct (empirical_float_run samples Hne Hx)
    as [lo [hi [c1 [_ [_ [Il [Ih [F [L1 [N1 [_ E1]]]]]]]]]]].
  destruct (empirical_float_run _ Hne' Hx')
    as [lo' [hi' [c2 [_ [_ [Il' [Ih' [F' [L2 [N2 [_ E2]]]]]]]]]]].
  assert (B : (k + lo)%Z = lo' /\ (k + hi)%Z = hi').
  { apply (bounds_unique (map (Z.add k) samples)); try assumption.
    - now apply in_map.
    - now apply in_map.
    - rewrite Forall_forall in *. intros r Hr.
      apply in_map_iff in Hr. destruct Hr as [r0 [<- Hr0]].
      specialize (F r0 Hr0). lia. }
  destruct B as [<- <-].
  replace (k + hi + 1 - (k + lo))%Z with (hi + 1 - lo)%Z in L2 by lia.
  assert (C : c2 = c1).
  { apply (nth_ext _ _ 0%nat 0%nat); [congruence|].
    intros i Hi. rewrite N1, N2 by congruence.
    replace (k + lo + Z.of_nat i)%Z with (k + (lo + Z.of_nat i))%Z by lia.
    apply count_occ_shift. }
  eexists. split; [exact E1|]. cbn [xs fr N n p].
  rewrite E2, C, length_map.
  replace (k + hi + 1)%Z with (k + (hi + 1))%Z by lia.
  rewrite arange_shift, length_map. reflexivity.
Qed.

Lemma exact_range_112 : exact_range [1; 1; 2]%Z.
Proof. unfold exact_range, two52. repeat constructor; lia. Qed.

Lemma exact_range_112_shifted : exact_range (map (Z.add 10) [1; 1; 2]%Z).
Proof. unfold exact_range, two52. simpl. repeat constructor; lia. Qed.

Lemma empirical_shift_witness :
  [1; 1; 2]%Z <> [] /\
  exact_range [1; 1; 2]%Z /\ exact_range (map (Z.add 10) [1; 1; 2]%Z) /\
  exists e,
    empirical_float [1; 1; 2]%Z = Ok e /\
    empirical_float (map (Z.add 10) [1; 1; 2]%Z)
    = Ok (mkEmpirical (map (Z.add 10) (xs e)) (fr e) (N e) (n e) (p e)).
Proof.
  split; [discriminate|]. split; [exact exact_range_112|].
  split; [exact exact_range_112_shifted|].
  apply (empirical_shift 10 [1; 1; 2]%Z);
    [discriminate | exact exact_range_112 | exact exact_range_112_shifted].
Defined.

(** ** The computation on doubles and the computation on integers
       (source lines 98-110) *)

Lemma index_raises v : forall l ex, index v l = Raise ex -> ex = ValueError.
Proof.
  intros l. induction l as [|y t IH]; intros ex H; simpl in H; [congruence|].
  destruct (Z.eqb y v); [discriminate|].
  destruct (index v t) as [k|ex'] eqn:E; cbn [bind] in H; [discriminate|].
  injection H as <-. now apply IH.
Qed.

Lemma index_lt v : forall l k, index v l = Ok k -> (k < length l)%nat.
Proof.
  intros l. induction l as [|y t IH]; intros k H; simpl in H; [discriminate|].
  destruct (Z.eqb y v).
  - injection H as <-. simpl. lia.
  - destruct (index v t) as [k'|] eqn:E; cbn [bind] in H; [|discriminate].
    injection H as <-. simpl. specialize (IH k' eq_refl). lia.
Qed.

Lemma count_loop_raises (support : list Z) : forall samples fr ex,
  length fr = length support ->
  count_loop support samples fr = Raise ex -> ex = ValueError.
Proof.
  intros samples. induction samples as [|r t IH]; intros fr0 ex L H;
    simpl in H; [discriminate|].
  destruct (index r support) as [k|ex'] eqn:Ek; cbn [bind] in H.
  - destruct (incr_at_spec fr0 k) as [fr1 [E1 [L1 _]]].
    { rewrite L. now apply (index_lt r). }
    rewrite E1 in H. cbn [bind] in H. apply (IH fr1 ex); congruence.
  - injection H as <-. now apply (index_raises r support).
Qed.

Lemma np_arange_raises start stop ex :
  np_arange start stop = Raise ex -> ex = ValueError.
Proof.
  unfold np_arange. destruct (is_inf start || is_inf stop); [congruence|].
  cbv zeta. destruct (two63 <=? Z.abs (pyfloat (stop - start)))%Z;
    [congruence | discriminate].
Qed.

(** The computation on doubles against the one on integers.  On samples
    in the exact range (from -2^52 up to, not including, 2^52) the two
    return the same.  On any samples, when the program builds a
    distribution its support is not empty, it has one count and one
    probability per support point, the counts add up to the number N of
    samples, and the probabilities are the counts over N: a probability
    vector (exact real arithmetic).  When it does not, the exception is
    [ValueError]. *)
Theorem empirical_float_and_integers (samples : list Z) :
  (exact_range samples -> empirical_float samples = empirical samples) /\
  (forall e, empirical_float samples = Ok e ->
     samples <> [] /\ xs e <> [] /\ n e = length (xs e) /\
     length (fr e) = n e /\ length (p e) = n e /\
     N e = length samples /\ list_sum (fr e) = N e /\
     p e = map (fun c => Fin (INR c / INR (N e))) (fr e) /\
     prob_vector (p e)) /\
  (forall ex, empirical_float samples = Raise ex -> ex = ValueError).
Proof.
  split; [apply empirical_float_exact|]. split.
  - intros e He.
    destruct (empirical_float_inv samples e He)
      as [Hne [Hx [En [Lf [EN [Hs Ep]]]]]].
    destruct (empirical_float_shape samples e He) as [_ [_ [Lp _]]].
    split; [exact Hne|]. split; [exact Hx|]. split; [exact En|].
    split; [congruence|]. split; [exact Lp|]. split; [exact EN|].
    split; [congruence|]. split; [rewrite EN; exact Ep|].
    exact (empirical_float_prob_vector samples e He).
  - unfold empirical_float. cbv zeta. intros ex H.
    destruct samples as [|s0 t]; [simpl in H; congruence|].
    set (R := map pyfloat (s0 :: t)) in *.
    assert (HR : length R <> 0%nat) by (unfold R; simpl; discriminate).
    destruct (np_minZ R) as [lo|] eqn:Elo; cbn [bind] in H;
      [|unfold R in Elo; simpl in Elo; discriminate].
    destruct (np_maxZ R) as [hi|] eqn:Ehi; cbn [bind] in H;
      [|unfold R in Ehi; simpl in Ehi; discriminate].
    destruct (np_arange lo (pyfloat (hi + 1))) as [support|ex'] eqn:Ea;
      cbn [bind] in H.
    + destruct (count_loop support R (repeat 0%nat (length support)))
        as [counts|ex'] eqn:Ec; cbn [bind] in H.
      * rewrite (mapM_ok _ (fun x => Fin (INR x / INR (length R)))) in H
          by (intros a _; now apply true_div_ok).
        discriminate.
      * injection H as <-.
        apply (count_loop_raises support R (repeat 0%nat (length support)));
          [apply repeat_length | exact Ec].
    + injection H as <-. now apply (np_arange_raises lo (pyfloat (hi + 1))).
Qed.

Lemma np_minZ_perm (l l' : list Z) :
  Permutation l l' -> np_minZ l = np_minZ l'.
Proof.
  intros HP.
  destruct (list_eq_dec Z.eq_dec l []) as [->|Hne].
  { apply Permutation_nil in HP. now subst. }
  assert (Hne' : l' <> []).
  { intros ->. apply Permutation_sym, Permutation_nil in HP. contradiction. }
  destruct (np_minZ_spec l Hne) as [a [-> [Ia Fa]]].
  destruct (np_minZ_spec l' Hne') as [b [-> [Ib Fb]]].
  rewrite Forall_forall in Fa, Fb.
  pose proof (Fa b (Permutation_in _ (Permutation_sym HP) Ib)).
  pose proof (Fb a (Permutation_in _ HP Ia)).
  f_equal. lia.
Qed.

Lemma np_maxZ_perm (l l' : list Z) :
  Permutation l l' -> np_maxZ l = np_maxZ l'.
Proof.
  intros HP.
  destruct (list_eq_dec Z.eq_dec l []) as [->|Hne].
  { apply Permutation_nil in HP. now subst. }
  assert (Hne' : l' <> []).
  { intros ->. apply Permutation_sym, Permutation_nil in HP. contradiction. }
  destruct (np_maxZ_spec l Hne) as [a [-> [Ia Fa]]].
  destruct (np_maxZ_spec l' Hne') as [b [-> [Ib Fb]]].
  rewrite Forall_forall in Fa, Fb.
  pose proof (Fa b (Permutation_in _ (Permutation_sym HP) Ib)).
  pose proof (Fb a (Permutation_in _ HP Ia)).
  f_equal. lia.
Qed.

Lemma incr_at_twice (fr : list nat) (j k : nat) :
  (j < length fr)%nat -> (k < length fr)%nat ->
  exists f1 f2 f,
    incr_at j fr = Ok f1 /\ incr_at k f1 = Ok f /\
    incr_at k fr = Ok f2 /\ incr_at j f2 = Ok f /\
    length f = length fr.
Proof.
  intros Hj Hk.
  destruct (incr_at_spec fr j Hj) as [f1 [E1 [L1 [N1 _]]]].
  destruct (incr_at_spec fr k Hk) as [f2 [E2 [L2 [N2 _]]]].
  destruct (incr_at_spec f1 k) as [f12 [E12 [L12 [N12 _]]]]; [lia|].
  destruct (incr_at_spec f2 j) as [f21 [E21 [L21 [N21 _]]]]; [lia|].
  assert (E : f21 = f12).
  { apply (nth_ext _ _ 0%nat 0%nat); [congruence|].
    intros i _. rewrite N21, N12, N1, N2.
    destruct (Nat.eqb i j), (Nat.eqb i k); reflexivity. }
  subst f21. exists f1, f2, f12. repeat (split; [assumption|]). congruence.
Qed.

Lemma count_loop_perm (support : list Z) (l l' : list Z) :
  Permutation l l' ->
  forall fr, length fr = length support ->
    count_loop support l fr = count_loop support l' fr.
Proof.
  induction 1 as [|x l l' HP IH|x y l|l l' l'' HP1 IH1 HP2 IH2];
    intros fr0 L.
  - reflexivity.
  - simpl. destruct (index x support) as [k|] eqn:Ek; cbn [bind];
      [|reflexivity].
    destruct (incr_at_spec fr0 k) as [f1 [E1 [L1 _]]].
    { rewrite L. now apply (index_lt x). }
    rewrite E1. cbn [bind]. apply IH. congruence.
  - simpl.
    destruct (index y support) as [ky|ey] eqn:Ey;
      destruct (index x support) as [kx|ex] eqn:Ex; cbn [bind].
    + destruct (incr_at_twice fr0 ky kx) as [f1 [f2 [f [E1 [E12 [E2 [E21 _]]]]]]].
      { rewrite L. now apply (index_lt y). }
      { rewrite L. now apply (index_lt x). }
      rewrite E1, E2. cbn [bind]. rewrite E12, E21. reflexivity.
    + destruct (incr_at_spec fr0 ky) as [f1 [E1 _]].
      { rewrite L. now apply (index_lt y). }
      rewrite E1. reflexivity.
    + destruct (incr_at_spec fr0 kx) as [f1 [E1 _]].
      { rewrite L. now apply (index_lt x). }
      rewrite E1. reflexivity.
    + rewrite (index_raises y support ey Ey), (index_raises x support ex Ex).
      reflexivity.
  - rewrite IH1 by exact L. now apply IH2.
Qed.

(** On doubles too the empirical distribution does not depend on the
    order of the samples: two sample lists that are permutations of each
    other give the same support, counts and probabilities, or raise the
    same exception, also where neighbouring integers share a double. *)
Theorem empirical_float_order_independent (s1 s2 : list Z) :
  Permutation s1 s2 -> empirical_float s1 = empirical_float s2.
Proof.
  intros HP. unfold empirical_float. cbv zeta.
  pose proof (Permutation_map pyfloat HP) as HR.
  rewrite (np_minZ_perm _ _ HR), (np_maxZ_perm _ _ HR).
  destruct (np_minZ (map pyfloat s2)) as [lo|]; cbn [bind]; [|reflexivity].
  destruct (np_maxZ (map pyfloat s2)) as [hi|]; cbn [bind]; [|reflexivity].
  destruct (np_arange lo (pyfloat (hi + 1))) as [support|]; cbn [bind];
    [|reflexivity].
  rewrite (count_loop_perm support _ _ HR) by apply repeat_length.
  rewrite (Permutation_length HR). reflexivity.
Qed.

(** Two orders of the samples 2^53 - 1, 2^53, on which the program
    raises. *)
Lemma empirical_float_order_independent_witness :
  Permutation [(two53 - 1)%Z; two53] [two53; (two53 - 1)%Z] /\
  empirical_float [(two53 - 1)%Z; two53]
  = empirical_float [two53; (two53 - 1)%Z].
Proof.
  assert (HP : Permutation [(two53 - 1)%Z; two53] [two53; (two53 - 1)%Z])
    by apply perm_swap.
  split; [exact HP|].
  exact (empirical_float_order_independent _ _ HP).
Defined.

(** ** The metrics on vectors of different lengths (source lines 186-212) *)

Lemma mapM_ext_in {A B} (f g : A -> res B) l :
  (forall a, In a l -> f a = g a) -> mapM f l = mapM g l.
Proof.
  induction l as [|a t IH]; intros H; simpl; [reflexivity|].
  rewrite (H a (or_introl eq_refl)), IH; [reflexivity|].
  intros b Hb. apply H. now right.
Qed.

Lemma chi_loop_ext (O E E' : list num) :
  forall idx acc,
    (forall i, In i idx -> getitem E i = getitem E' i) ->
    chi_loop O E idx acc = chi_loop O E' idx acc.
Proof.
  intros idx. induction idx as [|i t IH]; intros acc H; simpl; [reflexivity|].
  rewrite (H i (or_introl eq_refl)).
  destruct (getitem O i) as [o|]; simpl; [|reflexivity].
  destruct (getitem E' i) as [x|]; simpl; [|reflexivity].
  apply IH. intros j Hj. apply H. now right.
Qed.

Lemma getitem_firstn {A} (l : list A) k i :
  (i < k)%nat -> getitem (firstn k l) i = getitem l i.
Proof.
  intros H. unfold getitem. rewrite nth_error_firstn.
  destruct (Nat.ltb_spec i k); [reflexivity | lia].
Qed.

Lemma cumsum_from_firstn k : forall l acc,
  cumsum_from acc (firstn k l) = firstn k (cumsum_from acc l).
Proof.
  induction k as [|k IH]; intros [|x t] acc; simpl; try reflexivity.
  now rewrite IH.
Qed.

Lemma np_cumsum_firstn k l : np_cumsum (firstn k l) = firstn k (np_cumsum l).
Proof.
  destruct k as [|k], l as [|x t]; simpl; try reflexivity.
  now rewrite cumsum_from_firstn.
Qed.

(** When the expected vector is longer than the observed one, the four
    metrics ignore its surplus entries: they return what they return on
    the expected vector cut to the length of the observed one. *)
Theorem metrics_long_expected (O E : list num) :
  (length O <= length E)%nat ->
  chiSquare O E = chiSquare O (firstn (length O) E) /\
  RSquare O E = RSquare O (firstn (length O) E) /\
  RMSE O E = RMSE O (firstn (length O) E) /\
  KS O E = KS O (firstn (length O) E).
Proof.
  intros H.
  assert (Hsq : mapM (sq_err O E) (range (length O))
                = mapM (sq_err O (firstn (length O) E)) (range (length O))).
  { apply mapM_ext_in. intros i Hi. apply in_seq in Hi. unfold sq_err.
    rewrite getitem_firstn by lia. reflexivity. }
  split; [|split; [|split]].
  - unfold chiSquare. apply chi_loop_ext.
    intros i Hi. apply in_seq in Hi. rewrite getitem_firstn by lia. reflexivity.
  - unfold RSquare. now rewrite Hsq.
  - unfold RMSE. now rewrite Hsq.
  - unfold KS. cbv zeta. f_equal. apply mapM_ext_in.
    intros i Hi. apply in_seq in Hi.
    rewrite np_cumsum_firstn, getitem_firstn by lia. reflexivity.
Qed.

Lemma metrics_long_expected_witness :
  (length [Fin 1] <= length [Fin 1; Fin 0])%nat /\
  chiSquare [Fin 1] [Fin 1; Fin 0] = chiSquare [Fin 1] (firstn (length [Fin 1]) [Fin 1; Fin 0]) /\
  RSquare [Fin 1] [Fin 1; Fin 0] = RSquare [Fin 1] (firstn (length [Fin 1]) [Fin 1; Fin 0]) /\
  RMSE [Fin 1] [Fin 1; Fin 0] = RMSE [Fin 1] (firstn (length [Fin 1]) [Fin 1; Fin 0]) /\
  KS [Fin 1] [Fin 1; Fin 0] = KS [Fin 1] (firstn (length [Fin 1]) [Fin 1; Fin 0]).
Proof.
  assert (H : (length [Fin 1] <= length [Fin 1; Fin 0])%nat) by (simpl; lia).
  split; [exact H|].
  exact (metrics_long_expected [Fin 1] [Fin 1; Fin 0] H).
Defined.

(** ** Symmetry *)

Lemma sq_diff_sym a b : sq_diff a b = sq_diff b a.
Proof.
  unfold sq_diff, nsq, nsub. destruct a, b; simpl; try reflexivity.
  f_equal. ring.
Qed.

Lemma abs_diff_sym a b : abs_diff a b = abs_diff b a.
Proof.
  unfold abs_diff, nsub. destruct a, b; simpl; try reflexivity.
  f_equal. replace (r + - r0) with (- (r0 + - r)) by ring. apply Rabs_Ropp.
Qed.

Lemma zip_with_sym h (Hh : forall a b, h a b = h b a) :
  forall O E, zip_with h O E = zip_with h E O.
Proof.
  unfold zip_with. intros O. induction O as [|o t IH]; intros [|e u]; simpl;
    try reflexivity.
  now rewrite Hh, IH.
Qed.

(** RMSE and the Kolmogorov-Smirnov statistic do not depend on which of
    two vectors of one length is called observed and which expected. *)
Theorem RMSE_KS_symmetric (O E : list num) :
  length O = length E ->
  RMSE O E = RMSE E O /\ KS O E = KS E O.
Proof.
  intros L.
  rewrite (RMSE_closed O E L), (RMSE_closed E O (eq_sym L)).
  rewrite (KS_closed O E L), (KS_closed E O (eq_sym L)).
  rewrite (zip_with_sym sq_diff sq_diff_sym O E).
  rewrite (zip_with_sym abs_diff abs_diff_sym (np_cumsum O) (np_cumsum E)).
  split; reflexivity.
Qed.

Lemma RMSE_KS_symmetric_witness :
  length [Fin (1/2); Fin (1/2)] = length [Fin 0; Fin 1] /\
  RMSE [Fin (1/2); Fin (1/2)] [Fin 0; Fin 1]
  = RMSE [Fin 0; Fin 1] [Fin (1/2); Fin (1/2)] /\
  KS [Fin (1/2); Fin (1/2)] [Fin 0; Fin 1]
  = KS [Fin 0; Fin 1] [Fin (1/2); Fin (1/2)].
Proof.
  split; [reflexivity|].
  exact (RMSE_KS_symmetric [Fin (1/2); Fin (1/2)] [Fin 0; Fin 1] eq_refl).
Defined.

(** ** Chi-square against a positive expected vector (source lines 186-193) *)

(** Entries that are finite and above 0. *)
Definition pos_fin (x : num) : Prop := exists r, x = Fin r /\ 0 < r.

Lemma pos_fin_reals v : Forall pos_fin v ->
  exists rs, v = map Fin rs /\ Forall (fun r => 0 < r) rs.
Proof.
  induction 1 as [|x t [r [-> Hr]] _ [rs [-> IH]]].
  - exists []. split; [reflexivity | constructor].
  - exists (r :: rs). split; [reflexivity | now constructor].
Qed.

Lemma zip_chi_term_Fin os : forall es,
  Forall (fun r => 0 < r) es ->
  zip_with chi_term (map Fin os) (map Fin es)
  = map Fin (map (fun oe => (fst oe - snd oe) * (fst oe - snd oe) / snd oe)
                 (combine os es)).
Proof.
  unfold zip_with.
  induction os as [|a t IH]; intros [|b u] H; simpl; try reflexivity.
  inversion H as [|? ? Hb Hu]; subst.
  rewrite (IH u Hu). f_equal.
  unfold chi_term, sq_diff, nsq, nsub, ndiv, Rzero. simpl.
  destruct (Req_dec_T b 0) as [E|_]; [lra | reflexivity].
Qed.

Lemma chi_terms_nonneg os : forall es,
  Forall (fun r => 0 < r) es ->
  0 <= Rsum (map (fun oe => (fst oe - snd oe) * (fst oe - snd oe) / snd oe)
                 (combine os es)).
Proof.
  induction os as [|a t IH]; intros [|b u] H; simpl; try lra.
  inversion H as [|? ? Hb Hu]; subst.
  specialize (IH u Hu).
  assert (0 <= (a - b) * (a - b) / b).
  { apply Rmult_le_pos; [apply Rle_0_sqr | left; now apply Rinv_0_lt_compat]. }
  lra.
Qed.

Lemma chi_terms_zero os : forall es,
  length os = length es ->
  Forall (fun r => 0 < r) es ->
  Rsum (map (fun oe => (fst oe - snd oe) * (fst oe - snd oe) / snd oe)
            (combine os es)) = 0 ->
  os = es.
Proof.
  induction os as [|a t IH]; intros [|b u] L H S; simpl in *;
    try discriminate; [reflexivity|].
  inversion H as [|? ? Hb Hu]; subst.
  pose proof (chi_terms_nonneg t u Hu) as Ht.
  assert (Hq : 0 <= (a - b) * (a - b) / b).
  { apply Rmult_le_pos; [apply Rle_0_sqr | left; now apply Rinv_0_lt_compat]. }
  assert (Hz : (a - b) * (a - b) / b = 0) by lra.
  assert (Hab : a = b).
  { apply (Rmult_eq_compat_r b) in Hz.
    unfold Rdiv in Hz. rewrite Rmult_assoc, Rinv_l, Rmult_1_r, Rmult_0_l in Hz by lra.
    apply Rmult_integral in Hz. destruct Hz; lra. }
  subst b. f_equal. apply IH; [lia | exact Hu | lra].
Qed.

Lemma chi_terms_same es :
  Forall (fun r => 0 < r) es ->
  Rsum (map (fun oe => (fst oe - snd oe) * (fst oe - snd oe) / snd oe)
            (combine es es)) = 0.
Proof.
  induction 1 as [|b u Hb _ IH]; simpl; [reflexivity|].
  rewrite IH. unfold Rdiv. ring_simplify. reflexivity.
Qed.

(** Against an expected vector whose entries are all finite and above 0,
    the chi-square of a finite observed vector of the same length is a
    finite number, at least 0, and 0 exactly when the two vectors are
    equal. *)
Theorem chiSquare_positive_expected (O E : list num) :
  length O = length E -> finite_vec O -> Forall pos_fin E ->
  exists c, chiSquare O E = Ok (Fin c) /\ 0 <= c /\ (c = 0 <-> O = E).
Proof.
  intros L HO HE.
  destruct (finite_vec_reals O HO) as [os ->].
  destruct (pos_fin_reals E HE) as [es [-> Hes]].
  rewrite chiSquare_formula by exact L.
  unfold chi_formula. rewrite (zip_chi_term_Fin os es Hes), nsum_Fin.
  rewrite !length_map in L.
  eexists. split; [reflexivity|]. split; [now apply chi_terms_nonneg|].
  split.
  - intros H. f_equal. now apply chi_terms_zero.
  - intros H. apply map_Fin_inj in H. subst os. now apply chi_terms_same.
Qed.

Lemma chiSquare_positive_expected_witness :
  length [Fin (1/3); Fin (2/3)] = length [Fin (1/2); Fin (1/2)] /\
  finite_vec [Fin (1/3); Fin (2/3)] /\
  Forall pos_fin [Fin (1/2); Fin (1/2)] /\
  exists c, chiSquare [Fin (1/3); Fin (2/3)] [Fin (1/2); Fin (1/2)] = Ok (Fin c)
            /\ 0 <= c
            /\ (c = 0 <-> [Fin (1/3); Fin (2/3)] = [Fin (1/2); Fin (1/2)]).
Proof.
  assert (F : finite_vec [Fin (1/3); Fin (2/3)]) by (repeat constructor).
  assert (P : Forall pos_fin [Fin (1/2); Fin (1/2)]).
  { repeat constructor; (exists (1/2); split; [reflexivity | lra]). }
  split; [reflexivity|]. split; [exact F|]. split; [exact P|].
  exact (chiSquare_positive_expected [Fin (1/3); Fin (2/3)]
           [Fin (1/2); Fin (1/2)] eq_refl F P).
Defined.

(** ** R-square (source lines 196-200) *)

(** The mean and the two sums of squares of R-square, on reals. *)
Definition Rmean (os : list R) : R := Rsum os / INR (length os).

Definition SStot (os : list R) : R :=
  Rsum (map (fun o => (o - Rmean os) * (o - Rmean os)) os).

Definition SSres (os es : list R) : R :=
  Rsum (map (fun oe => (fst oe - snd oe) * (fst oe - snd oe)) (combine os es)).

Lemma RSquare_reals os es :
  os <> [] -> length os = length es ->
  RSquare (map Fin os) (map Fin es)
  = Ok (nsub (Fin 1) (ndiv (Fin (SSres os es)) (Fin (SStot os)))).
Proof.
  intros Hne L. rewrite RSquare_closed by now rewrite !length_map.
  rewrite zip_sq_diff_Fin, np_sum_Fin, (np_mean_Fin os Hne).
  rewrite map_map.
  replace (map (fun x => nsq (nsub (Fin x) (Fin (Rsum os / INR (length os))))) os)
    with (map Fin (map (fun o => (o - Rmean os) * (o - Rmean os)) os)).
  - rewrite np_sum_Fin. reflexivity.
  - rewrite map_map. apply map_ext. intros a. reflexivity.
Qed.

Lemma Rsum_zero_all l :
  Forall (fun r => 0 <= r) l -> Rsum l = 0 -> Forall (fun r => r = 0) l.
Proof.
  induction 1 as [|r t Hr Ht IH]; intros S; simpl in S; [constructor|].
  pose proof (Rsum_nonneg t Ht) as Hs.
  constructor; [lra | apply IH; lra].
Qed.

Lemma SStot_nonneg os : 0 <= SStot os.
Proof.
  unfold SStot. apply Rsum_nonneg. apply Forall_forall.
  intros r Hr. apply in_map_iff in Hr. destruct Hr as [o [<- _]].
  apply Rle_0_sqr.
Qed.

Lemma SStot_zero_constant os x :
  SStot os = 0 -> In x os -> x = Rmean os.
Proof.
  intros H Hx. unfold SStot in H.
  apply Rsum_zero_all in H.
  - rewrite Forall_forall in H.
    assert (Hz : (x - Rmean os) * (x - Rmean os) = 0).
    { apply H. apply in_map_iff. now exists x. }
    apply Rmult_integral in Hz. destruct Hz; lra.
  - apply Forall_forall. intros r Hr. apply in_map_iff in Hr.
    destruct Hr as [o [<- _]]. apply Rle_0_sqr.
Qed.

(** For finite vectors of one length, when the observed vector holds two
    different values, R-square is a finite number, at most 1, and 1
    exactly when the expected vector equals the observed one. *)
Theorem RSquare_at_most_one (O E : list num) :
  length O = length E -> finite_vec O -> finite_vec E ->
  (exists x y, In x O /\ In y O /\ x <> y) ->
  exists r, RSquare O E = Ok (Fin r) /\ r <= 1 /\ (r = 1 <-> O = E).
Proof.
  intros L HO HE [x [y [Hx [Hy Hxy]]]].
  destruct (finite_vec_reals O HO) as [os ->].
  destruct (finite_vec_reals E HE) as [es ->].
  rewrite !length_map in L.
  assert (Hne : os <> []) by (intros ->; destruct Hx).
  apply in_map_iff in Hx. destruct Hx as [a [<- Ha]].
  apply in_map_iff in Hy. destruct Hy as [b [<- Hb]].
  assert (Hpos : 0 < SStot os).
  { pose proof (SStot_nonneg os) as H0.
    destruct (Req_dec_T (SStot os) 0) as [Z|Z]; [|lra].
    exfalso. apply Hxy.
    now rewrite (SStot_zero_constant os a Z Ha), (SStot_zero_constant os b Z Hb). }
  pose proof (Rsum_squares_nonneg os es) as Hres. fold (SSres os es) in Hres.
  rewrite (RSquare_reals os es Hne L).
  unfold ndiv, Rzero. destruct (Req_dec_T (SStot os) 0) as [Z|_]; [lra|].
  unfold nsub. simpl.
  assert (Hq : 0 <= SSres os es / SStot os).
  { apply Rmult_le_pos; [exact Hres | left; now apply Rinv_0_lt_compat]. }
  eexists. split; [reflexivity|]. split; [lra|]. split.
  - intros H. f_equal. apply Rsum_squares_zero; [exact L|].
    fold (SSres os es).
    assert (Hz : SSres os es / SStot os = 0) by lra.
    apply (Rmult_eq_compat_r (SStot os)) in Hz.
    unfold Rdiv in Hz.
    rewrite Rmult_assoc, Rinv_l, Rmult_1_r, Rmult_0_l in Hz by lra. exact Hz.
  - intros H. apply map_Fin_inj in H. subst es.
    unfold SSres. rewrite Rsum_squares_same. unfold Rdiv. lra.
Qed.

Lemma RSquare_at_most_one_witness :
  length [Fin (1/3); Fin (2/3)] = length [Fin (1/2); Fin (1/2)] /\
  finite_vec [Fin (1/3); Fin (2/3)] /\
  finite_vec [Fin (1/2); Fin (1/2)] /\
  (exists x y, In x [Fin (1/3); Fin (2/3)] /\ In y [Fin (1/3); Fin (2/3)] /\ x <> y) /\
  exists r, RSquare [Fin (1/3); Fin (2/3)] [Fin (1/2); Fin (1/2)] = Ok (Fin r)
            /\ r <= 1
            /\ (r = 1 <-> [Fin (1/3); Fin (2/3)] = [Fin (1/2); Fin (1/2)]).
Proof.
  assert (F1 : finite_vec [Fin (1/3); Fin (2/3)]) by (repeat constructor).
  assert (F2 : finite_vec [Fin (1/2); Fin (1/2)]) by (repeat constructor).
  assert (D : exists x y, In x [Fin (1/3); Fin (2/3)]
                          /\ In y [Fin (1/3); Fin (2/3)] /\ x <> y).
  { exists (Fin (1/3)), (Fin (2/3)). split; [now left|].
    split; [right; now left|]. intros H. injection H as H. lra. }
  split; [reflexivity|]. split; [exact F1|]. split; [exact F2|].
  split; [exact D|].
  exact (RSquare_at_most_one [Fin (1/3); Fin (2/3)] [Fin (1/2); Fin (1/2)]
           eq_refl F1 F2 D).
Defined.

Lemma Rsum_map_repeat (f : R -> R) c k :
  Rsum (map f (repeat c k)) = INR k * f c.
Proof.
  induction k as [|k IH]; [simpl; lra|].
  rewrite S_INR. simpl repeat. simpl map. simpl Rsum. rewrite IH. lra.
Qed.

Lemma Rmean_repeat c k : Rmean (repeat c (S k)) = c.
Proof.
  unfold Rmean. rewrite Rsum_repeat, repeat_length.
  assert (H : 0 < INR (S k)) by (apply lt_0_INR; lia).
  field. lra.
Qed.

Lemma SStot_repeat c k : SStot (repeat c (S k)) = 0.
Proof.
  unfold SStot. rewrite Rsum_map_repeat, Rmean_repeat. ring.
Qed.

Lemma ndiv_zero_divisor (s : num) (d : R) :
  d = 0 -> is_finite (ndiv s (Fin d)) = false.
Proof.
  intros ->. destruct s as [a| | |]; cbn [ndiv]; try reflexivity.
  - unfold Rzero. destruct (Req_dec_T 0 0) as [_|H]; [|lra].
    unfold scale_inf. destruct (Rzero a); [reflexivity|].
    destruct (xorb false (Rneg a)); reflexivity.
  - destruct (Rneg 0); reflexivity.
  - destruct (Rneg 0); reflexivity.
Qed.

Lemma nsub_not_finite (x y : num) :
  is_finite y = false -> is_finite (nsub x y) = false.
Proof. destruct x, y; simpl; congruence. Qed.

(** Against the observed vector [1] the total sum of squares is 0 and
    R-square divides by it: the result is never a finite number. *)
Lemma RSquare_observed_one (x : num) :
  exists v, RSquare [Fin 1] [x] = Ok v /\ is_finite v = false.
Proof.
  unfold RSquare, sq_err, range.
  cbn [length seq mapM getitem nth_error bind].
  change [Fin 1] with (map Fin [1]) at 1.
  rewrite np_mean_Fin by discriminate.
  eexists. split; [reflexivity|].
  apply nsub_not_finite. unfold np_sum at 2. cbn [fold_left nsub nopp nadd nsq nmul].
  apply ndiv_zero_divisor. simpl. field.
Qed.

(** On a support of one point (every sample has the same value) the
    probability vector is [1] and the uniform density is [1]; the total
    sum of squares of R-square is 0, so the R-square row of the table
    holds no finite number, whatever the fitted parameters are: NaN for
    the uniform model, NaN or an infinity for the other two. *)
Theorem RSquare_one_point_support
        (sf : special_functions) (samples : list Z) (e : empirical_dist) :
  empirical_float samples = Ok e -> n e = 1%nat ->
  p e = [Fin 1] /\
  uniDist (map of_Z (xs e)) (n e) = Ok [Fin 1] /\
  RSquare (p e) [Fin 1] = Ok NaN /\
  forall a b c,
    exists v1 v2,
      RSquare (p e) (betaBinom sf (map of_Z (xs e)) a b) = Ok v1 /\
      is_finite v1 = false /\
      RSquare (p e) (zipfDist sf (map of_Z (xs e)) c) = Ok v2 /\
      is_finite v2 = false.
Proof.
  intros He Hn1.
  destruct (empirical_float_inv samples e He)
    as [Hne [_ [En [Lf [_ [Hs Ep]]]]]].
  assert (HN : length samples <> 0%nat) by (destruct samples; simpl; congruence).
  assert (HNpos : 0 < INR (length samples)) by (apply lt_0_INR; lia).
  rewrite Hn1 in En. rewrite <- En in Lf.
  destruct (xs e) as [|z [|z' t]] eqn:Ex; simpl in En; try discriminate.
  destruct (fr e) as [|c0 [|c1 t]] eqn:Ef; simpl in Lf; try discriminate.
  simpl in Hs. rewrite Nat.add_0_r in Hs. subst c0.
  assert (E1 : p e = [Fin 1]).
  { rewrite Ep. cbn [map]. do 2 f_equal. field. lra. }
  rewrite E1, Hn1. split; [reflexivity|]. split.
  { unfold uniDist, true_div. cbn [Nat.eqb bind map length repeat].
    do 3 f_equal. simpl. field. }
  split.
  { change [Fin 1] with (map Fin (repeat 1 1)).
    rewrite RSquare_reals by (discriminate || reflexivity).
    rewrite SStot_repeat. unfold SSres. rewrite Rsum_squares_same.
    unfold ndiv, scale_inf, Rzero.
    destruct (Req_dec_T 0 0) as [_|H]; [reflexivity | lra]. }
  intros a b c. cbn [map betaBinom zipfDist].
  destruct (RSquare_observed_one
              (ndiv (nmul (binom sf (of_nat (length [of_Z z])) (of_Z z))
                       (beta sf (nadd a (of_Z z))
                          (nsub (nadd b (of_nat (length [of_Z z]))) (of_Z z))))
                 (beta sf a b))) as [v1 [H1 F1]].
  destruct (RSquare_observed_one
              (ndiv (float_pow sf (of_Z z) (nmul (Fin (-1)) c)) (zetac sf c)))
    as [v2 [H2 F2]].
  exists v1, v2. auto.
Qed.

(** The theorem on the samples 5, 5, 5, 5. *)
Lemma RSquare_one_point_support_witness :
  empirical_float [5; 5; 5; 5]%Z = Ok e5555 /\ n e5555 = 1%nat /\
  p e5555 = [Fin 1] /\
  RSquare (p e5555) [Fin 1] = Ok NaN /\
  forall a b c,
    exists v1 v2,
      RSquare (p e5555) (betaBinom ref_sf (map of_Z (xs e5555)) a b) = Ok v1 /\
      is_finite v1 = false /\
      RSquare (p e5555) (zipfDist ref_sf (map of_Z (xs e5555)) c) = Ok v2 /\
      is_finite v2 = false.
Proof.
  assert (He : empirical_float [5; 5; 5; 5]%Z = Ok e5555) by reflexivity.
  split; [exact He|]. split; [reflexivity|].
  destruct (RSquare_one_point_support ref_sf [5; 5; 5; 5]%Z e5555 He eq_refl)
    as [Hp [_ [Hu Hall]]].
  split; [exact Hp|]. split; [exact Hu | exact Hall].
Defined.

(** ** The Kolmogorov-Smirnov statistic of probability vectors
       (source lines 207-212) *)

(** Entries that are finite and between 0 and 1. *)
Definition unit_fin (x : num) : Prop := exists r, x = Fin r /\ 0 <= r <= 1.

Lemma cumsum_from_bounds rs : forall a,
  Forall (fun r => 0 <= r) rs ->
  Forall (fun x => exists r, x = Fin r /\ a <= r <= a + Rsum rs)
         (cumsum_from (Fin a) (map Fin rs)).
Proof.
  induction rs as [|r t IH]; intros a H; simpl; [constructor|].
  inversion H as [|? ? Hr Ht]; subst.
  pose proof (Rsum_nonneg t Ht) as Hs.
  constructor.
  - exists (a + r). split; [reflexivity | lra].
  - eapply Forall_impl; [|apply (IH (a + r) Ht)].
    intros x [q [-> Hq]]. exists q. split; [reflexivity | lra].
Qed.

Lemma np_cumsum_unit v : prob_vector v -> Forall unit_fin (np_cumsum v).
Proof.
  intros [rs [-> [Hnn Hsum]]].
  destruct rs as [|r t]; simpl; [constructor|].
  inversion Hnn as [|? ? Hr Ht]; subst. simpl in Hsum.
  pose proof (Rsum_nonneg t Ht) as Hs.
  constructor.
  - exists r. split; [reflexivity | lra].
  - eapply Forall_impl; [|apply (cumsum_from_bounds t r Ht)].
    intros x [q [-> Hq]]. exists q. split; [reflexivity | lra].
Qed.

Lemma zip_abs_diff_unit a : forall b,
  Forall unit_fin a -> Forall unit_fin b ->
  Forall unit_fin (zip_with abs_diff a b).
Proof.
  unfold zip_with. induction a as [|x t IH]; intros [|y u] Ha Hb; simpl;
    try constructor.
  - inversion Ha as [|? ? [r [-> Hr]] _]; subst.
    inversion Hb as [|? ? [q [-> Hq]] _]; subst.
    exists (Rabs (r + - q)). split; [reflexivity|].
    split; [apply Rabs_pos|]. apply Rabs_le. lra.
  - inversion Ha; inversion Hb; subst. now apply IH.
Qed.

Lemma fold_nmax_unit t : forall x,
  unit_fin x -> Forall unit_fin t -> unit_fin (fold_left nmax t x).
Proof.
  induction t as [|y u IH]; intros x Hx Ht; simpl; [exact Hx|].
  inversion Ht as [|? ? Hy Hu]; subst. apply IH; [|exact Hu].
  destruct Hx as [a [-> Ha]], Hy as [b [-> Hb]]. simpl.
  exists (Rmax a b). split; [reflexivity|].
  split; [apply Rle_trans with a; [lra | apply Rmax_l] | apply Rmax_lub; lra].
Qed.





(** ** The model functions (source lines 129-157) *)

Lemma nmul_nan_r x : nmul x NaN = NaN.
Proof. now destruct x. Qed.

(** A NaN in either parameter of the beta-binomial evaluators, or in the
    parameter of the Zipfian one, makes every entry of the result NaN,
    whatever the values of the support and of the external functions. *)
Theorem nan_parameter_gives_nan_vector
        (sf : special_functions) (x : list num) (n a b : num) :
  betaBinom sf x NaN b = repeat NaN (length x) /\
  betaBinom sf x a NaN = repeat NaN (length x) /\
  betaBinomN sf x n NaN b = repeat NaN (length x) /\
  betaBinomN sf x n a NaN = repeat NaN (length x) /\
  zipfDist sf x NaN = repeat NaN (length x).
Proof.
  assert (B1 : forall y, beta sf NaN y = NaN) by reflexivity.
  assert (B2 : forall y, beta sf y NaN = NaN) by (intros y; now destruct y).
  repeat split.
  - unfold betaBinom. rewrite <- map_const. apply map_ext. intros v.
    now rewrite (B1 b), ndiv_nan_r.
  - unfold betaBinom. rewrite <- map_const. apply map_ext. intros v.
    now rewrite (B2 a), ndiv_nan_r.
  - unfold betaBinomN. rewrite <- map_const. apply map_ext. intros v.
    now rewrite (B1 b), ndiv_nan_r.
  - unfold betaBinomN. rewrite <- map_const. apply map_ext. intros v.
    now rewrite (B2 a), ndiv_nan_r.
  - apply zipfDist_nan.
Qed.


(** ** The uniform column of the metrics table
       (source lines 129-131, 217, 222, 227, 232) *)

Lemma empirical_prob_vector (samples : list Z) (e : empirical_dist) :
  empirical samples = Ok e -> prob_vector (p e).
Proof.
  intros He.
  destruct (empirical_shape samples e He) as [Hne _].
  destruct (empirical_run samples Hne)
    as [lo [hi [counts [_ [_ [_ [_ [_ [_ [_ [Hs Ee]]]]]]]]]]].
  rewrite Ee in He. injection He as <-. cbn [p].
  assert (HN : length samples <> 0%nat) by (destruct samples; simpl; congruence).
  assert (HNpos : 0 < INR (length samples)) by (apply lt_0_INR; lia).
  exists (map (fun x => INR x / INR (length samples)) counts).
  split; [now rewrite map_map|]. split.
  - apply Forall_forall. intros r Hr. apply in_map_iff in Hr.
    destruct Hr as [c [<- _]].
    apply Rmult_le_pos; [apply pos_INR | left; now apply Rinv_0_lt_compat].
  - rewrite Rsum_scaled, Hs. field. lra.
Qed.

Lemma np_max_unit l :
  l <> [] -> Forall unit_fin l -> exists k, np_max l = Ok (Fin k) /\ 0 <= k <= 1.
Proof.
  intros Hl H. destruct l as [|x t]; [congruence|].
  inversion H as [|? ? Hx Ht]; subst.
  destruct (fold_nmax_unit t x Hx Ht) as [k [E Hk]].
  exists k. simpl. now rewrite E.
Qed.

Lemma KS_probability_bound (O E : list num) :
  O <> [] -> length O = length E -> prob_vector O -> prob_vector E ->
  exists k, KS O E = Ok (Fin k) /\ 0 <= k <= 1.
Proof.
  intros Hne L HO HE. rewrite KS_closed by exact L.
  apply np_max_unit.
  - intros Z. apply (f_equal (@length num)) in Z.
    rewrite zip_with_length in Z by now rewrite !np_cumsum_length.
    rewrite np_cumsum_length in Z. destruct O; [congruence | discriminate].
  - apply zip_abs_diff_unit; now apply np_cumsum_unit.
Qed.

Lemma chi_terms_constant_divisor (u : R) ps : forall j,
  u <> 0 ->
  Rsum (map (fun oe => (fst oe - snd oe) * (fst oe - snd oe) / snd oe)
            (combine ps (repeat u j)))
  = Rsum (map (fun oe => (fst oe - snd oe) * (fst oe - snd oe))
              (combine ps (repeat u j))) / u.
Proof.
  induction ps as [|a t IH]; intros [|j] Hu; simpl;
    try (unfold Rdiv; ring).
  rewrite (IH j Hu). field. exact Hu.
Qed.

Lemma Forall_repeat {A} (P : A -> Prop) a k : P a -> Forall P (repeat a k).
Proof. intros H. induction k; simpl; constructor; auto. Qed.

(** The uniform column of a distribution with a non-empty support, one
    probability per support point and probabilities that form a
    probability vector. *)
Lemma uniform_column_of (e : empirical_dist) :
  length (xs e) = n e -> length (p e) = n e -> n e <> 0%nat -> p e <> [] ->
  prob_vector (p e) ->
  exists u c m k,
    uniDist (map of_Z (xs e)) (n e) = Ok u /\
    chiSquare (p e) u = Ok (Fin c) /\
    RMSE (p e) u = Ok (Fin m) /\
    KS (p e) u = Ok (Fin k) /\
    0 <= c /\ 0 <= m /\ 0 <= k <= 1 /\
    c = INR (n e) * INR (n e) * (m * m) /\
    (c = 0 <-> p e = u).
Proof.
  intros Lx Lp Hn Hp PV.
  destruct (uniDist_entries (map of_Z (xs e)) (n e) Hn) as [Hu Hpos].
  rewrite length_map, Lx in Hu.
  assert (HnR : 0 < INR (n e)) by (apply lt_0_INR; lia).
  destruct PV as [ps [Eps [Hnn Hsum]]].
  assert (Lps : length ps = n e) by (rewrite <- Lp, Eps; now rewrite length_map).
  assert (Hps : ps <> []).
  { intros ->. apply Hn. rewrite <- Lps. reflexivity. }
  assert (Lu : length ps = length (repeat (1 / INR (n e)) (n e)))
    by now rewrite repeat_length.
  assert (Hus : Forall (fun r => 0 < r) (repeat (1 / INR (n e)) (n e)))
    by now apply Forall_repeat.
  pose proof (Rsum_squares_nonneg ps (repeat (1 / INR (n e)) (n e))) as HS.
  set (S := Rsum (map (fun oe => (fst oe - snd oe) * (fst oe - snd oe))
                      (combine ps (repeat (1 / INR (n e)) (n e))))) in *.
  assert (Hq : 0 <= S / INR (n e)).
  { apply Rmult_le_pos; [exact HS | left; now apply Rinv_0_lt_compat]. }
  destruct (KS_probability_bound (p e) (repeat (Fin (1 / INR (n e))) (n e)))
    as [k [Hk Hk01]].
  { exact Hp. }
  { now rewrite repeat_length. }
  { exists ps. auto. }
  { now apply uniform_prob_vector. }
  exists (repeat (Fin (1 / INR (n e))) (n e)),
    (S / (1 / INR (n e))), (sqrt (S / INR (n e))), k.
  split; [exact Hu|].
  assert (Echi : chiSquare (p e) (repeat (Fin (1 / INR (n e))) (n e))
                 = Ok (Fin (S / (1 / INR (n e))))).
  { rewrite chiSquare_formula by now rewrite repeat_length.
    unfold chi_formula. rewrite Eps, map_repeat_Fin.
    rewrite (zip_chi_term_Fin ps _ Hus), nsum_Fin.
    rewrite chi_terms_constant_divisor by lra. reflexivity. }
  assert (Ermse : RMSE (p e) (repeat (Fin (1 / INR (n e))) (n e))
                  = Ok (Fin (sqrt (S / INR (n e))))).
  { rewrite Eps, map_repeat_Fin, (RMSE_reals ps _ Hps Lu), Lps. reflexivity. }
  split; [exact Echi|]. split; [exact Ermse|]. split; [exact Hk|].
  assert (Ec : S / (1 / INR (n e)) = INR (n e) * S) by (field; lra).
  split; [rewrite Ec; apply Rmult_le_pos; lra|].
  split; [apply sqrt_pos|]. split; [exact Hk01|]. split.
  - rewrite sqrt_sqrt by exact Hq. rewrite Ec. field. lra.
  - rewrite Eps, map_repeat_Fin. split.
    + intros H0. f_equal. apply Rsum_squares_zero; [exact Lu|].
      fold S. rewrite Ec in H0.
      apply Rmult_integral in H0. destruct H0; lra.
    + intros H0. apply map_Fin_inj in H0.
      rewrite Ec. unfold S. rewrite H0 at 1. rewrite Rsum_squares_same. ring.
Qed.

(** For every non-empty sample set the uniform column of the table is
    made of finite numbers for chi-square, RMSE and KS: all three are at
    least 0, KS is at most 1, chi-square is n^2 times the square of RMSE,
    and chi-square is 0 exactly when the empirical probabilities are the
    uniform ones. *)
Theorem uniform_column_metrics (samples : list Z) :
  samples <> [] ->
  exists e u c m k,
    empirical samples = Ok e /\
    uniDist (map of_Z (xs e)) (n e) = Ok u /\
    chiSquare (p e) u = Ok (Fin c) /\
    RMSE (p e) u = Ok (Fin m) /\
    KS (p e) u = Ok (Fin k) /\
    0 <= c /\ 0 <= m /\ 0 <= k <= 1 /\
    c = INR (n e) * INR (n e) * (m * m) /\
    (c = 0 <-> p e = u).
Proof.
  intros Hne.
  destruct (empirical_run samples Hne)
    as [lo [hi [counts [_ [_ [_ [_ [_ [_ [_ [_ Ee]]]]]]]]]]].
  destruct (empirical_shape samples _ Ee) as [_ [Lx [Lp [Hn Hp]]]].
  pose proof (empirical_prob_vector samples _ Ee) as PV.
  destruct (uniform_column_of _ Lx Lp Hn Hp PV) as [u [c [m [k H]]]].
  eexists. exists u, c, m, k. split; [exact Ee | exact H].
Qed.

Lemma uniform_column_metrics_witness :
  [1; 1; 2; 2; 2; 3]%Z <> [] /\
  exists e u c m k,
    empirical [1; 1; 2; 2; 2; 3]%Z = Ok e /\
    uniDist (map of_Z (xs e)) (n e) = Ok u /\
    chiSquare (p e) u = Ok (Fin c) /\
    RMSE (p e) u = Ok (Fin m) /\
    KS (p e) u = Ok (Fin k) /\
    0 <= c /\ 0 <= m /\ 0 <= k <= 1 /\
    c = INR (n e) * INR (n e) * (m * m) /\
    (c = 0 <-> p e = u).
Proof.
  split; [discriminate|].
  apply (uniform_column_metrics [1; 1; 2; 2; 2; 3]%Z). discriminate.
Defined.

(** The same on every distribution the program builds, rounding or not:
    the uniform column of the table is made of finite numbers for
    chi-square, RMSE and KS, all at least 0, KS at most 1, chi-square is
    n^2 times the square of RMSE and is 0 exactly when the empirical
    probabilities are the uniform ones. *)
Theorem uniform_column_metrics_float (samples : list Z) (e : empirical_dist) :
  empirical_float samples = Ok e ->
  exists u c m k,
    uniDist (map of_Z (xs e)) (n e) = Ok u /\
    chiSquare (p e) u = Ok (Fin c) /\
    RMSE (p e) u = Ok (Fin m) /\
    KS (p e) u = Ok (Fin k) /\
    0 <= c /\ 0 <= m /\ 0 <= k <= 1 /\
    c = INR (n e) * INR (n e) * (m * m) /\
    (c = 0 <-> p e = u).
Proof.
  intros He.
  destruct (empirical_float_shape samples e He) as [_ [Lx [Lp [Hn Hp]]]].
  exact (uniform_column_of e Lx Lp Hn Hp
           (empirical_float_prob_vector samples e He)).
Qed.

Lemma uniform_column_metrics_float_witness :
  empirical_float [1; 1; 2]%Z = Ok e112 /\
  exists u c m k,
    uniDist (map of_Z (xs e112)) (n e112) = Ok u /\
    chiSquare (p e112) u = Ok (Fin c) /\
    RMSE (p e112) u = Ok (Fin m) /\
    KS (p e112) u = Ok (Fin k) /\
    0 <= c /\ 0 <= m /\ 0 <= k <= 1 /\
    c = INR (n e112) * INR (n e112) * (m * m) /\
    (c = 0 <-> p e112 = u).
Proof.
  split; [exact empirical_float_112|].
  exact (uniform_column_metrics_float [1; 1; 2]%Z e112 empirical_float_112).
Defined.

(** ** A sample set with one repeated value (source lines 102-110, 186-212) *)

Lemma chiSquare_single : chiSquare [Fin 1] [Fin 1] = Ok (Fin 0).
Proof.
  rewrite chiSquare_formula by reflexivity.
  unfold chi_formula. change [Fin 1] with (map Fin [1]).
  rewrite (zip_chi_term_Fin [1] [1]) by (repeat constructor; lra).
  rewrite nsum_Fin. simpl. do 2 f_equal. field.
Qed.

Lemma RSquare_single : RSquare [Fin 1] [Fin 1] = Ok NaN.
Proof.
  change [Fin 1] with (map Fin (repeat 1 1)).
  rewrite RSquare_reals by (discriminate || reflexivity).
  rewrite SStot_repeat. unfold SSres. rewrite Rsum_squares_same.
  unfold ndiv, scale_inf, Rzero.
  destruct (Req_dec_T 0 0) as [_|H]; [reflexivity | lra].
Qed.

Lemma RMSE_single : RMSE [Fin 1] [Fin 1] = Ok (Fin 0).
Proof.
  change [Fin 1] with (map Fin [1]).
  rewrite RMSE_reals by (discriminate || reflexivity).
  rewrite Rsum_squares_same. do 2 f_equal.
  unfold Rdiv. rewrite Rmult_0_l. apply sqrt_0.
Qed.

Lemma KS_single : KS [Fin 1] [Fin 1] = Ok (Fin 0).
Proof.
  unfold KS. simpl. do 2 f_equal.
  replace (1 + - (1)) with 0 by lra. apply Rabs_R0.
Qed.

(** A sample set that repeats one value v of the exact range (from -2^52
    up to, not including, 2^52) any number of times has the support [v],
    n = 1 and the probability vector [1]; the uniform density is [1] as
    well, so the uniform column has chi-square 0, RMSE 0 and KS 0, while
    R-square is NaN (0/0). *)
Theorem single_value_sample (v : Z) (j : nat) :
  (- two52 <= v < two52)%Z ->
  exists e,
    empirical_float (repeat v (S j)) = Ok e /\
    xs e = [v] /\ fr e = [S j] /\ N e = S j /\ n e = 1%nat /\
    p e = [Fin 1] /\
    uniDist (map of_Z (xs e)) (n e) = Ok [Fin 1] /\
    chiSquare (p e) [Fin 1] = Ok (Fin 0) /\
    RSquare (p e) [Fin 1] = Ok NaN /\
    RMSE (p e) [Fin 1] = Ok (Fin 0) /\
    KS (p e) [Fin 1] = Ok (Fin 0).
Proof.
  intros Hv.
  assert (Hne : repeat v (S j) <> []) by discriminate.
  assert (Hx : exact_range (repeat v (S j))).
  { unfold exact_range. apply Forall_repeat. exact Hv. }
  destruct (empirical_float_run (repeat v (S j)) Hne Hx)
    as [lo [hi [counts [_ [_ [Il [Ih [_ [Lc [Hn [_ Ee]]]]]]]]]]].
  apply repeat_spec in Il. apply repeat_spec in Ih. subst lo hi.
  replace (v + 1 - v)%Z with 1%Z in Lc by lia. simpl in Lc.
  assert (Ec : counts = [S j]).
  { destruct counts as [|c [|c' t]]; simpl in Lc; try discriminate.
    specialize (Hn 0%nat (Nat.lt_0_succ 0)). simpl nth in Hn.
    rewrite Hn. f_equal. simpl Z.of_nat. rewrite Z.add_0_r.
    now apply count_occ_repeat_eq. }
  subst counts.
  assert (Ex : arange v (v + 1) = [v]).
  { unfold arange. replace (v + 1 - v)%Z with 1%Z by lia. simpl.
    f_equal. lia. }
  rewrite Ex, repeat_length in Ee. cbn [length map] in Ee.
  assert (HS : 0 < INR (S j)) by (apply lt_0_INR; lia).
  assert (E1 : INR (S j) / INR (S j) = 1) by (field; lra).
  rewrite E1 in Ee.
  eexists. split; [exact Ee|]. cbn [xs fr N n p].
  repeat (split; [reflexivity|]).
  split.
  { unfold uniDist, true_div. cbn [Nat.eqb bind map length repeat].
    do 3 f_equal. simpl. field. }
  split; [exact chiSquare_single|]. split; [exact RSquare_single|].
  split; [exact RMSE_single | exact KS_single].
Qed.

(** The theorem on the value 7 read three times. *)
Lemma single_value_sample_witness :
  (- two52 <= 7 < two52)%Z /\
  exists e,
    empirical_float (repeat 7%Z 3) = Ok e /\
    xs e = [7%Z] /\ fr e = [3%nat] /\ N e = 3%nat /\ n e = 1%nat /\
    p e = [Fin 1] /\
    uniDist (map of_Z (xs e)) (n e) = Ok [Fin 1] /\
    chiSquare (p e) [Fin 1] = Ok (Fin 0) /\
    RSquare (p e) [Fin 1] = Ok NaN /\
    RMSE (p e) [Fin 1] = Ok (Fin 0) /\
    KS (p e) [Fin 1] = Ok (Fin 0).
Proof.
  assert (H : (- two52 <= 7 < two52)%Z) by (unfold two52; lia).
  split; [exact H|].
  exact (single_value_sample 7 2 H).
Defined.

(** ** The summary statistics (source lines 115-121) *)

Lemma Rsum_bounds (a b : R) rs :
  Forall (fun r => a <= r <= b) rs ->
  INR (length rs) * a <= Rsum rs <= INR (length rs) * b.
Proof.
  induction 1 as [|r t Hr _ IH]; [simpl; lra|].
  simpl length. rewrite S_INR. simpl Rsum. lra.
Qed.

Lemma Rmean_bounds (a b : R) rs :
  rs <> [] -> Forall (fun r => a <= r <= b) rs -> a <= Rmean rs <= b.
Proof.
  intros Hne H. pose proof (Rsum_bounds a b rs H) as [H1 H2].
  assert (Hp : 0 < INR (length rs)).
  { apply lt_0_INR. destruct rs; [congruence | simpl; lia]. }
  unfold Rmean. split.
  - apply (Rmult_le_reg_r (INR (length rs))); [exact Hp|].
    unfold Rdiv. rewrite Rmult_assoc, Rinv_l, Rmult_1_r by lra. lra.
  - apply (Rmult_le_reg_r (INR (length rs))); [exact Hp|].
    unfold Rdiv. rewrite Rmult_assoc, Rinv_l, Rmult_1_r by lra. lra.
Qed.

(** The variance of a list of reals, as [np.var] computes it. *)
Definition Rvar (rs : list R) : R :=
  Rmean (map (fun r => Rabs (r - Rmean rs) * Rabs (r - Rmean rs)) rs).

Lemma np_var_Fin rs :
  rs <> [] -> np_var (map Fin rs) = Fin (Rvar rs).
Proof.
  intros Hne. unfold np_var. cbv zeta.
  rewrite (np_mean_Fin rs Hne). fold (Rmean rs). rewrite map_map.
  replace (map (fun x => nsq (nabs (nsub (Fin x) (Fin (Rmean rs))))) rs)
    with (map Fin (map (fun r => Rabs (r - Rmean rs) * Rabs (r - Rmean rs)) rs))
    by (rewrite map_map; apply map_ext; intros a; reflexivity).
  rewrite np_mean_Fin.
  - reflexivity.
  - destruct rs; [congruence | discriminate].
Qed.

(** On a non-empty sample set the statistics are returned as five
    entries: the mean lies between the minimum and the maximum, the range
    is max - min, which is n - 1 for the support length n, the variance
    lies between 0 and the square of the range, and the standard
    deviation is the square root of the variance, at most the range. *)
Theorem basic_stats_bounds (iqr : list num -> num) (samples : list Z) :
  samples <> [] ->
  exists lo hi m v,
    np_minZ samples = Ok lo /\ np_maxZ samples = Ok hi /\
    basic_stats iqr samples
    = Ok [Fin m; Fin (sqrt v); Fin (IZR (hi - lo)); Fin v;
          iqr (map of_Z samples)] /\
    IZR lo <= m <= IZR hi /\
    0 <= v <= IZR (hi - lo) * IZR (hi - lo) /\
    sqrt v <= IZR (hi - lo) /\
    (hi - lo = Z.of_nat (length (arange lo (hi + 1))) - 1)%Z.
Proof.
  intros Hne.
  destruct (np_minZ_spec samples Hne) as [lo [Elo [Ilo Flo]]].
  destruct (np_maxZ_spec samples Hne) as [hi [Ehi [Ihi Fhi]]].
  assert (Hlohi : (lo <= hi)%Z).
  { rewrite Forall_forall in Flo. apply Flo. exact Ihi. }
  set (rs := map IZR samples).
  assert (Hrs : rs <> []) by (unfold rs; destruct samples; [congruence | discriminate]).
  assert (Ef : map of_Z samples = map Fin rs).
  { unfold rs. rewrite map_map. reflexivity. }
  assert (Hb : Forall (fun r => IZR lo <= r <= IZR hi) rs).
  { unfold rs. apply Forall_forall. intros r Hr. apply in_map_iff in Hr.
    destruct Hr as [z [<- Hz]]. rewrite Forall_forall in Flo, Fhi.
    split; apply IZR_le; [apply Flo | apply Fhi]; exact Hz. }
  pose proof (Rmean_bounds _ _ rs Hrs Hb) as Hm.
  assert (Hd : 0 <= IZR (hi - lo)) by (apply IZR_le; lia).
  assert (Hdiff : IZR (hi - lo) = IZR hi - IZR lo) by apply minus_IZR.
  assert (Hv : 0 <= Rvar rs <= IZR (hi - lo) * IZR (hi - lo)).
  { unfold Rvar. apply Rmean_bounds.
    - destruct rs; [congruence | discriminate].
    - apply Forall_forall. intros t Ht. apply in_map_iff in Ht.
      destruct Ht as [r [<- Hr]]. rewrite Forall_forall in Hb.
      specialize (Hb r Hr).
      assert (Ha : Rabs (r - Rmean rs) <= IZR (hi - lo)).
      { apply Rabs_le. lra. }
      pose proof (Rabs_pos (r - Rmean rs)) as Hp.
      split; [apply Rmult_le_pos; exact Hp|].
      apply Rmult_le_compat; assumption. }
  exists lo, hi, (Rmean rs), (Rvar rs).
  split; [exact Elo|]. split; [exact Ehi|]. split.
  { unfold basic_stats. rewrite Elo, Ehi. simpl bind. cbv zeta.
    unfold np_std. rewrite Ef, (np_mean_Fin rs Hrs), (np_var_Fin rs Hrs).
    fold (Rmean rs). unfold nsqrt, Rneg.
    destruct (Rlt_dec (Rvar rs) 0) as [Hn|_]; [lra|].
    unfold nsub, of_Z. simpl. rewrite Hdiff. reflexivity. }
  split; [exact Hm|]. split; [exact Hv|]. split.
  - rewrite <- (sqrt_square (IZR (hi - lo))) by exact Hd.
    apply sqrt_le_1_alt. lra.
  - rewrite arange_length. lia.
Qed.

Lemma basic_stats_bounds_witness :
  [1; 1; 2]%Z <> [] /\
  exists lo hi m v,
    np_minZ [1; 1; 2]%Z = Ok lo /\ np_maxZ [1; 1; 2]%Z = Ok hi /\
    basic_stats iqr_undefined [1; 1; 2]%Z
    = Ok [Fin m; Fin (sqrt v); Fin (IZR (hi - lo)); Fin v;
          iqr_undefined (map of_Z [1; 1; 2]%Z)] /\
    IZR lo <= m <= IZR hi /\
    0 <= v <= IZR (hi - lo) * IZR (hi - lo) /\
    sqrt v <= IZR (hi - lo) /\
    (hi - lo = Z.of_nat (length (arange lo (hi + 1))) - 1)%Z.
Proof.
  split; [discriminate|].
  apply (basic_stats_bounds iqr_undefined [1; 1; 2]%Z). discriminate.
Defined.

(** ** What a run owes to the optimizer (source lines 115-121, 166-234) *)

(** An optimizer whose outcome is not determined at all. *)
Definition any_fit {M P : Type} (model : M) (xdata ydata : list num)
           (outcome : res P) : Prop := True.

Lemma scored_column_functional (O E c1 c2 : list num) :
  scored_column O E c1 -> scored_column O E c2 -> c1 = c2.
Proof.
  intros [c [r [m [k [-> [Hc [Hr [Hm Hk]]]]]]]]
         [c' [r' [m' [k' [-> [Hc' [Hr' [Hm' Hk']]]]]]]].
  congruence.
Qed.

(** Whatever the optimizer does, and even when two calls of it on the
    same data differ, two runs on the same samples either raise the same
    exception or return results with the same summary statistics and the
    same uniform column of the metrics table. *)
Theorem statistics_and_uniform_column_fixed
        (sf : special_functions) (iqr : list num -> num)
        (cfb : (list num -> num -> num -> list num) -> list num -> list num ->
               res (num * num) -> Prop)
        (cff : (list num -> num -> list num) -> list num -> list num ->
               res num -> Prop)
        (samples : list Z) (out1 out2 : res output) :
  distributionFitting sf iqr cfb cff samples out1 ->
  distributionFitting sf iqr cfb cff samples out2 ->
  (exists ex, out1 = Raise ex /\ out2 = Raise ex) \/
  (exists o1 o2,
     out1 = Ok o1 /\ out2 = Ok o2 /\
     basicStats o1 = basicStats o2 /\
     column 0 (cell_data o1) = column 0 (cell_data o2)).
Proof.
  intros H1 H2.
  destruct (empirical_float samples) as [e|ex] eqn:He.
  - right.
    destruct (distributionFitting_inv sf iqr cfb cff samples e out1 He H1)
      as [st1 [b1 [z1 [Hs1 [L1 [_ [_ ->]]]]]]].
    destruct (distributionFitting_inv sf iqr cfb cff samples e out2 He H2)
      as [st2 [b2 [z2 [Hs2 [L2 [_ [_ ->]]]]]]].
    assert (st1 = st2) by congruence. subst st2.
    destruct (finish_ok sf samples e st1 b1 z1 He L1)
      as [cells1 [u1 [F1 [_ [_ [U1 [S1 _]]]]]]].
    destruct (finish_ok sf samples e st1 b2 z2 He L1)
      as [cells2 [u2 [F2 [_ [_ [U2 [S2 _]]]]]]].
    assert (u1 = u2) by congruence. subst u2.
    eexists. eexists. split; [exact F1|]. split; [exact F2|].
    split; [reflexivity|]. simpl.
    exact (scored_column_functional _ _ _ _ S1 S2).
  - left. unfold distributionFitting in H1, H2. rewrite He in H1, H2.
    exists ex. auto.
Qed.

Lemma statistics_and_uniform_column_fixed_witness :
  exists out1 out2,
    distributionFitting ref_sf iqr_undefined any_fit any_fit [1; 1; 2]%Z out1 /\
    distributionFitting ref_sf iqr_undefined any_fit any_fit [1; 1; 2]%Z out2 /\
    ((exists ex, out1 = Raise ex /\ out2 = Raise ex) \/
     (exists o1 o2,
        out1 = Ok o1 /\ out2 = Ok o2 /\
        basicStats o1 = basicStats o2 /\
        column 0 (cell_data o1) = column 0 (cell_data o2))).
Proof.
  destruct (float_stats_ok iqr_undefined [1; 1; 2]%Z) as [stats [Hs _]];
    [discriminate|].
  assert (R1 : distributionFitting ref_sf iqr_undefined any_fit any_fit
                 [1; 1; 2]%Z
                 (finish ref_sf stats e112 (Raise RuntimeError) (Raise RuntimeError))).
  { apply distributionFitting_intro;
      [exact empirical_float_112 | exact Hs | exact I | exact I]. }
  assert (R2 : distributionFitting ref_sf iqr_undefined any_fit any_fit
                 [1; 1; 2]%Z
                 (finish ref_sf stats e112 (Ok (Fin 1, Fin 1)) (Ok (Fin 1)))).
  { apply distributionFitting_intro;
      [exact empirical_float_112 | exact Hs | exact I | exact I]. }
  eexists. eexists. split; [exact R1|]. split; [exact R2|].
  exact (statistics_and_uniform_column_fixed ref_sf iqr_undefined
           any_fit any_fit [1; 1; 2]%Z _ _ R1 R2).
Defined.
